(** * SpeakUpProject forum client: reply tree, ownership and session store

    A shallow embedding of [frontend/src/App.tsx], the client with
    accounts, and of the places where the two other variants of the same
    component differ from it.

    JavaScript values are modelled as the TypeScript types of the source
    give them: [number] identifiers as [Z], [string] as [string],
    [T | null] as [option T], a [Record] as a finite map.  The token maps
    and the stored user are the exception: they are read back from
    storage through casts that check nothing, so they hold JSON values
    under property names.  Functions of the platform whose text format is
    no part of the repository ([Date] parsing, the text
    [Intl.DateTimeFormat] gives a date, [JSON.parse], [JSON.stringify],
    [Number] on a property name) are section variables; a handler receives the outcome of each request it sends
    as an argument. *)

From Stdlib Require Import ZArith List Lia Ascii String.
From stdpp Require Import base option strings pretty gmap list sorting.

Local Set Warnings "-register-all".

Local Open Scope string_scope.
Local Open Scope list_scope.
Local Open Scope stdpp_scope.
Local Open Scope Z_scope.

(** ** JavaScript truthiness and the [||] operator *)

Module JS.

(** [Boolean(s)] for [s : string]: only the empty string is falsy. *)
Definition truthy_string (s : string) : bool :=
  match s with
  | EmptyString => false
  | String _ _ => true
  end.

(** [Boolean(x)] for [x : string | null | undefined]. *)
Definition truthy_opt_string (o : option string) : bool :=
  match o with
  | Some s => truthy_string s
  | None => false
  end.

(** [a || b] where [a : string | null | undefined] and [b : string]. *)
Definition or_string (a : option string) (b : string) : string :=
  match a with
  | Some s => if truthy_string s then s else b
  | None => b
  end.

(** [String(n)] for an integral [number]. *)
Definition String_of_number (n : Z) : string := pretty n.

(** [Array.prototype.sort(cmp)]: the sort is stable (ECMAScript 2019),
    an element moves behind another one only when the comparator is
    positive on them.  Insertion from the right end keeps equal
    elements in their input order. *)
Fixpoint sort_insert {A} (cmp : A → A → Z) (x : A) (l : list A) : list A :=
  match l with
  | [] => [x]
  | y :: l' => if 0 <? cmp x y then y :: sort_insert cmp x l' else x :: l
  end.

Fixpoint sort {A} (cmp : A → A → Z) (l : list A) : list A :=
  match l with
  | [] => []
  | x :: l' => sort_insert cmp x (sort cmp l')
  end.

End JS.

(** ** Data model (types of App.tsx, lines 3-36) *)

Record Reply := mkReply {
  reply_id : Z;
  reply_thread_id : Z;
  reply_parent_id : option Z;
  reply_body : string;
  reply_author_name : option string;
  reply_is_anonymous : bool;
  reply_created_at : string;
}.

Record Thread := mkThread {
  thread_id : Z;
  thread_title : string;
  thread_body : string;
  thread_author_name : option string;
  thread_is_anonymous : bool;
  thread_created_at : string;
  thread_replies : list Reply;
}.

Record AuthUser := mkAuthUser {
  user_id : Z;
  user_username : string;
  user_email : string;
}.

Global Instance Reply_eq_dec : EqDecision Reply.
Proof. solve_decision. Defined.

Global Instance AuthUser_eq_dec : EqDecision AuthUser.
Proof. solve_decision. Defined.

(** ** formatAuthor (App.tsx, lines 64-67) *)

Definition formatAuthor (name : option string) (isAnonymous : bool) : string :=
  if isAnonymous then "Anonymous" else JS.or_string name "Unknown".

(** ** Exceptions *)

Inductive exn : Type := Error (message : string).

Definition message (e : exn) : string :=
  match e with Error m => m end.

Inductive completion (A : Type) : Type :=
| Normal (value : A)
| Throw (e : exn).
Arguments Normal {A} value.
Arguments Throw {A} e.

Global Instance completion_ret : MRet completion := λ A v, Normal v.
Global Instance completion_bind : MBind completion := λ A B f m,
  match m with
  | Normal v => f v
  | Throw e => Throw e
  end.

(** [try { body } catch { handler }] around a computation without state. *)
Definition try_ {A} (body : completion A) (handler : exn → completion A)
  : completion A :=
  match body with
  | Normal v => Normal v
  | Throw e => handler e
  end.

(** ** The reply tree builder (component [ThreadItem], lines 552-588) *)

(** [String(parentId ?? "root")], the key under which a group is stored. *)
Definition parent_key (parentId : option Z) : string :=
  match parentId with
  | None => "root"
  | Some n => JS.String_of_number n
  end.

(** One [<div className="reply">] with what it shows: the reply, the depth
    that sets its left margin, whether the two buttons are present, and the
    nested elements of [renderReplies(reply.id, depth + 1)].  The author
    and the date it shows are the texts [formatAuthor] and [formatDate]
    give for the reply. *)
Inductive Element : Type :=
  ReplyDiv (reply : Reply) (depth : nat) (replyButton deleteButton : bool)
           (nested : list Element).

Fixpoint flatten (e : Element) : list (Reply * nat) :=
  match e with
  | ReplyDiv r d _ _ nested => (r, d) :: flat_map flatten nested
  end.

Definition element_reply (e : Element) : Reply :=
  match e with ReplyDiv r _ _ _ _ => r end.

(** The rendering sequence of a list of elements, in document order. *)
Definition sequence (es : list Element) : list (Reply * nat) :=
  flat_map flatten es.

(** A call that may not come back: [None] when the call depth is
    exhausted, otherwise the completion of the call.  [and_then m f] goes
    on with [f] when [m] has returned. *)
Definition and_then {A B} (m : option (completion A))
    (f : A → option (completion B)) : option (completion B) :=
  match m with
  | None => None
  | Some (Throw e) => Some (Throw e)
  | Some (Normal v) => f v
  end.

(** [xs.map(f)]: the callback runs on the items in order, and the first
    run that does not return ends the call. *)
Fixpoint Array_map {A B} (f : A → option (completion B)) (xs : list A)
  : option (completion (list B)) :=
  match xs with
  | [] => Some (Normal [])
  | x :: rest =>
      and_then (f x) (λ y,
      and_then (Array_map f rest) (λ ys, Some (Normal (y :: ys))))
  end.

Section TreeBuilder.

(** [+new Date(s)]: the time value of a timestamp string, in
    milliseconds.  The grouping is about timestamps that are dates; the
    model of the time value has no invalid date. *)
Variable Date_value : string → Z.

(** [new Intl.DateTimeFormat("en-GB", {dateStyle: "medium", timeStyle:
    "short", timeZone: "Asia/Jakarta"}).format(new Date(s))]: the text of
    a date, or the [RangeError] that [format] throws when [s] is no
    date. *)
Variable DateTimeFormat_format : string → completion string.

(** [formatDate], lines 69-75. *)
Definition formatDate (dateString : string) : completion string :=
  DateTimeFormat_format dateString.

(** The comparator handed to [sort] at line 560. *)
Definition by_created_at (a b : Reply) : Z :=
  Date_value (reply_created_at a) - Date_value (reply_created_at b).

(** The body of the first loop, lines 555-557. *)
Definition group_push (grouped : gmap string (list Reply)) (reply : Reply)
  : gmap string (list Reply) :=
  let key := parent_key (reply_parent_id reply) in
  <[key := default [] (grouped !! key) ++ [reply]]> grouped.

Definition group_replies (replies : list Reply) : gmap string (list Reply) :=
  fold_left group_push replies ∅.

(** [repliesByParent], lines 552-563: group, then sort every group. *)
Definition repliesByParent (replies : list Reply) : gmap string (list Reply) :=
  JS.sort by_created_at <$> group_replies replies.

(** [repliesByParent[key] || []], line 567: the children read for a
    parent. *)
Definition children_of (replies : list Reply) (parentId : option Z)
  : list Reply :=
  default [] (repliesByParent replies !! parent_key parentId).

Variable canInteract : bool.
Variable canDeleteReply : Z → bool.

(** [renderReplies], lines 565-588.  The source recurses on the id of
    each child; the recursion is not structural, so the model counts
    the remaining call depth and answers [None] when it is exhausted
    (the JavaScript call stack overflowing).  The callback of [map]
    evaluates [formatDate(reply.created_at)] at line 572, which throws
    when the string is no date, and the nested call at line 585; what
    either of them throws leaves [renderReplies]. *)
Fixpoint renderReplies (fuel : nat) (grouped : gmap string (list Reply))
    (parentId : option Z) (depth : nat) : option (completion (list Element)) :=
  match fuel with
  | O => None
  | S fuel' =>
      let key := parent_key parentId in
      let children := default [] (grouped !! key) in
      Array_map (λ reply,
                   and_then (Some (formatDate (reply_created_at reply))) (λ _,
                   and_then (renderReplies fuel' grouped (Some (reply_id reply))
                               (S depth)) (λ nested,
                   Some (Normal (ReplyDiv reply depth canInteract
                                   (canDeleteReply (reply_id reply)) nested)))))
                children
  end.

(** [<div className="reply-list">{renderReplies(null, 0)}</div>],
    line 604. *)
Definition reply_list (fuel : nat) (replies : list Reply)
  : option (completion (list Element)) :=
  renderReplies fuel (repliesByParent replies) None 0.

End TreeBuilder.

(** Where a reply hangs in a collection.  [nested_under replies p d0 r d]:
    following parent ids upwards from [r] through replies of the
    collection arrives at a reply whose parent reference is [p], and [r]
    lies [d - d0] levels below it. *)
Inductive nested_under (replies : list Reply) (p : option Z) (d0 : nat)
  : Reply → nat → Prop :=
| nested_child r :
    r ∈ replies → reply_parent_id r = p → nested_under replies p d0 r d0
| nested_deeper r q d :
    r ∈ replies → nested_under replies p d0 q d →
    reply_parent_id r = Some (reply_id q) →
    nested_under replies p d0 r (S d).

(** A reply is attached at depth [d] when its chain of parents ends, [d]
    steps up, at a reply without parent. *)
Definition attached (replies : list Reply) : Reply → nat → Prop :=
  nested_under replies None 0.

(** A parent id that is the id of no reply of the collection. *)
Definition dangling (replies : list Reply) (r : Reply) : Prop :=
  ∃ p, reply_parent_id r = Some p ∧ ∀ q, q ∈ replies → reply_id q ≠ p.


(** ** Values read back from storage *)

(** What [JSON.parse] can produce.  The casts at lines 42 and 53 check
    nothing, so the token maps and the stored user hold such values at run
    time whatever their TypeScript type says.  Numbers are kept integral:
    no function below computes with one. *)
Inductive json : Type :=
| JNull
| JBool (b : bool)
| JNumber (n : Z)
| JString (s : string)
| JArray (items : list json)
| JObject (members : list (string * json)).

(** [Boolean(v)]. *)
Definition truthy (v : json) : bool :=
  match v with
  | JNull => false
  | JBool b => b
  | JNumber n => negb (n =? 0)
  | JString s => JS.truthy_string s
  | JArray _ | JObject _ => true
  end.

(** [Boolean(v)] where [v] may be [undefined], as a missing property is. *)
Definition truthy_opt (v : option json) : bool :=
  match v with
  | Some v => truthy v
  | None => false
  end.

(** [a || b] on values, [a] possibly [undefined]. *)
Definition or_json (a : option json) (b : json) : json :=
  match a with
  | Some v => if truthy v then v else b
  | None => b
  end.

Fixpoint assoc (name : string) (members : list (string * json)) : option json :=
  match members with
  | [] => None
  | (k, v) :: rest => if decide (k = name) then Some v else assoc name rest
  end.

(** [v?.name]: [undefined] on [null] and on values without the property. *)
Definition member (v : json) (name : string) : option json :=
  match v with
  | JObject members => assoc name members
  | _ => None
  end.

Definition json_of_AuthUser (u : AuthUser) : json :=
  JObject [("id", JNumber (user_id u));
           ("username", JString (user_username u));
           ("email", JString (user_email u))].

(** ** Local storage and the readers (App.tsx, lines 27-57) *)

Definition threadTokenStorageKey : string := "forum-thread-owner-tokens".
Definition replyTokenStorageKey : string := "forum-reply-owner-tokens".
Definition authTokenStorageKey : string := "forum-auth-token".
Definition authUserStorageKey : string := "forum-auth-user".

(** [window.localStorage]: [getItem] is the lookup, [null] when missing. *)
Abbreviation Storage := (gmap string string).

Fixpoint string_chars (s : string) : list json :=
  match s with
  | EmptyString => []
  | String c rest => JString (String c EmptyString) :: string_chars rest
  end.

Definition indexed (items : list json) : list (string * json) :=
  imap (λ i v, (JS.String_of_number (Z.of_nat i), v)) items.

(** [Object.entries(v)]: a [TypeError] on [null], nothing for the other
    primitives but strings, the indexed items of strings and arrays, the
    members of an object. *)
Definition Object_entries (v : json) : completion (list (string * json)) :=
  match v with
  | JNull => Throw (Error "Cannot convert undefined or null to object")
  | JBool _ | JNumber _ => Normal []
  | JString s => Normal (indexed (string_chars s))
  | JArray items => Normal (indexed items)
  | JObject members => Normal members
  end.

(** [Object.fromEntries(entries)]: a later entry replaces an earlier one
    of the same key. *)
Definition Object_fromEntries (entries : list (string * json))
  : gmap string json :=
  fold_left (λ object entry, <[entry.1 := entry.2]> object) entries ∅.

(** The property a token is stored under: [tokens[id]] reads the key
    [String(id)]. *)
Definition token_key (id : Z) : string := JS.String_of_number id.

Section Platform.

(** [JSON.parse]: a value, or the [SyntaxError] it throws. *)
Variable JSON_parse : string → completion json.
(** [JSON.stringify]. *)
Variable JSON_stringify : json → string.
(** The key an entry gets at line 43: [Number(id)] used as a property
    name, that is [String(Number(id))]. *)
Variable numeric_key : string → string.

(** [readTokenMap], lines 38-47. *)
Definition readTokenMap (storage : Storage) (storageKey : string)
  : completion (gmap string json) :=
  try_
    (match storage !! storageKey with
     | None => Normal ∅
     | Some raw =>
         if negb (JS.truthy_string raw) then Normal ∅
         else
           parsed ← JSON_parse raw;
           entries ← Object_entries parsed;
           Normal (Object_fromEntries
                     ((λ entry, (numeric_key entry.1, entry.2)) <$> entries))
     end)
    (λ _, Normal ∅).

(** [readStoredAuthUser], lines 49-57; [JNull] is [null]. *)
Definition readStoredAuthUser (storage : Storage) : completion json :=
  try_
    (match storage !! authUserStorageKey with
     | None => Normal JNull
     | Some raw =>
         if negb (JS.truthy_string raw) then Normal JNull
         else JSON_parse raw
     end)
    (λ _, Normal JNull).

End Platform.

(** ** The state of the component [App] (the [useState] cells of lines
    83-106 that the handlers below read or write) *)

Record AppState := mkAppState {
  threads : list Thread;
  loading : bool;
  error : option string;
  threadTitle : string;
  threadBody : string;
  threadName : string;
  threadAnonymous : bool;
  replyBodyByThread : gmap Z string;
  replyNameByThread : gmap Z string;
  replyAnonymousByThread : gmap Z bool;
  replyTargetByThread : gmap Z (option Z);
  threadTokens : gmap string json;
  replyTokens : gmap string json;
  authToken : option string;
  authUser : json;
}.

(** The setter of each cell, applied to a function of the previous value
    as [setThreadTokens((prev) => ...)] is. *)
Definition setThreads (f : list Thread → list Thread)
    (st : AppState) : AppState :=
  mkAppState (f (threads st)) (loading st) (error st) (threadTitle st)
    (threadBody st) (threadName st) (threadAnonymous st)
    (replyBodyByThread st) (replyNameByThread st)
    (replyAnonymousByThread st) (replyTargetByThread st) (threadTokens st)
    (replyTokens st) (authToken st) (authUser st).

Definition setLoading (f : bool → bool) (st : AppState) : AppState :=
  mkAppState (threads st) (f (loading st)) (error st) (threadTitle st)
    (threadBody st) (threadName st) (threadAnonymous st)
    (replyBodyByThread st) (replyNameByThread st)
    (replyAnonymousByThread st) (replyTargetByThread st) (threadTokens st)
    (replyTokens st) (authToken st) (authUser st).

Definition setError (f : option string → option string)
    (st : AppState) : AppState :=
  mkAppState (threads st) (loading st) (f (error st)) (threadTitle st)
    (threadBody st) (threadName st) (threadAnonymous st)
    (replyBodyByThread st) (replyNameByThread st)
    (replyAnonymousByThread st) (replyTargetByThread st) (threadTokens st)
    (replyTokens st) (authToken st) (authUser st).

Definition setThreadTitle (f : string → string) (st : AppState) : AppState :=
  mkAppState (threads st) (loading st) (error st) (f (threadTitle st))
    (threadBody st) (threadName st) (threadAnonymous st)
    (replyBodyByThread st) (replyNameByThread st)
    (replyAnonymousByThread st) (replyTargetByThread st) (threadTokens st)
    (replyTokens st) (authToken st) (authUser st).

Definition setThreadBody (f : string → string) (st : AppState) : AppState :=
  mkAppState (threads st) (loading st) (error st) (threadTitle st)
    (f (threadBody st)) (threadName st) (threadAnonymous st)
    (replyBodyByThread st) (replyNameByThread st)
    (replyAnonymousByThread st) (replyTargetByThread st) (threadTokens st)
    (replyTokens st) (authToken st) (authUser st).

Definition setThreadName (f : string → string) (st : AppState) : AppState :=
  mkAppState (threads st) (loading st) (error st) (threadTitle st)
    (threadBody st) (f (threadName st)) (threadAnonymous st)
    (replyBodyByThread st) (replyNameByThread st)
    (replyAnonymousByThread st) (replyTargetByThread st) (threadTokens st)
    (replyTokens st) (authToken st) (authUser st).

Definition setThreadAnonymous (f : bool → bool) (st : AppState) : AppState :=
  mkAppState (threads st) (loading st) (error st) (threadTitle st)
    (threadBody st) (threadName st) (f (threadAnonymous st))
    (replyBodyByThread st) (replyNameByThread st)
    (replyAnonymousByThread st) (replyTargetByThread st) (threadTokens st)
    (replyTokens st) (authToken st) (authUser st).

Definition setReplyBodyByThread (f : gmap Z string → gmap Z string)
    (st : AppState) : AppState :=
  mkAppState (threads st) (loading st) (error st) (threadTitle st)
    (threadBody st) (threadName st) (threadAnonymous st)
    (f (replyBodyByThread st)) (replyNameByThread st)
    (replyAnonymousByThread st) (replyTargetByThread st) (threadTokens st)
    (replyTokens st) (authToken st) (authUser st).

Definition setReplyNameByThread (f : gmap Z string → gmap Z string)
    (st : AppState) : AppState :=
  mkAppState (threads st) (loading st) (error st) (threadTitle st)
    (threadBody st) (threadName st) (threadAnonymous st)
    (replyBodyByThread st) (f (replyNameByThread st))
    (replyAnonymousByThread st) (replyTargetByThread st) (threadTokens st)
    (replyTokens st) (authToken st) (authUser st).

Definition setReplyAnonymousByThread (f : gmap Z bool → gmap Z bool)
    (st : AppState) : AppState :=
  mkAppState (threads st) (loading st) (error st) (threadTitle st)
    (threadBody st) (threadName st) (threadAnonymous st)
    (replyBodyByThread st) (replyNameByThread st)
    (f (replyAnonymousByThread st)) (replyTargetByThread st)
    (threadTokens st) (replyTokens st) (authToken st) (authUser st).

Definition setReplyTargetByThread
    (f : gmap Z (option Z) → gmap Z (option Z)) (st : AppState) : AppState :=
  mkAppState (threads st) (loading st) (error st) (threadTitle st)
    (threadBody st) (threadName st) (threadAnonymous st)
    (replyBodyByThread st) (replyNameByThread st)
    (replyAnonymousByThread st) (f (replyTargetByThread st))
    (threadTokens st) (replyTokens st) (authToken st) (authUser st).

Definition setThreadTokens (f : gmap string json → gmap string json)
    (st : AppState) : AppState :=
  mkAppState (threads st) (loading st) (error st) (threadTitle st)
    (threadBody st) (threadName st) (threadAnonymous st)
    (replyBodyByThread st) (replyNameByThread st)
    (replyAnonymousByThread st) (replyTargetByThread st)
    (f (threadTokens st)) (replyTokens st) (authToken st) (authUser st).

Definition setReplyTokens (f : gmap string json → gmap string json)
    (st : AppState) : AppState :=
  mkAppState (threads st) (loading st) (error st) (threadTitle st)
    (threadBody st) (threadName st) (threadAnonymous st)
    (replyBodyByThread st) (replyNameByThread st)
    (replyAnonymousByThread st) (replyTargetByThread st) (threadTokens st)
    (f (replyTokens st)) (authToken st) (authUser st).

(** [isAuthed], line 107: [Boolean(authToken && authUser)]. *)
Definition isAuthed (st : AppState) : bool :=
  JS.truthy_opt_string (authToken st) && truthy (authUser st).

(** The props [canDeleteThread] and [canDeleteReply] handed to
    [ThreadItem], lines 505-506. *)
Definition canDeleteThread (st : AppState) (threadId : Z) : bool :=
  truthy_opt (threadTokens st !! token_key threadId) && isAuthed st.

Definition canDeleteReply (st : AppState) (replyId : Z) : bool :=
  truthy_opt (replyTokens st !! token_key replyId) && isAuthed st.

(** The reply list of a thread as [App] renders it: [canInteract] is
    [isAuthed], line 504. *)
Definition thread_reply_list (Date_value : string → Z)
    (DateTimeFormat_format : string → completion string) (st : AppState)
    (fuel : nat) (thread : Thread) : option (completion (list Element)) :=
  reply_list Date_value DateTimeFormat_format (isAuthed st) (canDeleteReply st)
    fuel (thread_replies thread).

(** The four operations that change what the server holds. *)
Inductive Operation : Type :=
| CreateThread
| CreateReply (threadId : Z)
| DeleteThread (threadId : Z)
| DeleteReply (threadId replyId : Z).

(** Whether the page renders the control that starts an operation on a
    thread or reply it lists: the thread form (line 429), the reply form
    of a thread (lines 504 and 606), the two delete buttons (lines 598
    and 580). *)
Definition control_shown (st : AppState) (op : Operation) : bool :=
  match op with
  | CreateThread => isAuthed st
  | CreateReply _ => isAuthed st
  | DeleteThread threadId => canDeleteThread st threadId
  | DeleteReply _ replyId => canDeleteReply st replyId
  end.

(** The text rendered where a control is withheld, lines 422-427 and
    640-644; nothing stands in for a withheld delete button. *)
Definition sign_in_hint (st : AppState) (op : Operation) : option string :=
  match op with
  | CreateThread =>
      if isAuthed st then None
      else Some "Sign in to create a thread and reply to others."
  | CreateReply _ =>
      if isAuthed st then None else Some "Sign in to reply to this thread."
  | DeleteThread _ | DeleteReply _ _ => None
  end.

(** ** The network *)

Record ThreadCreateResponse := mkThreadCreateResponse {
  created_thread : Thread;
  thread_owner_token : string;
}.

Record ReplyCreateResponse := mkReplyCreateResponse {
  created_reply : Reply;
  reply_owner_token : string;
}.

(** The requests the handlers send, with their headers and body. *)
Inductive Request : Type :=
| GET_threads
| POST_thread (authorization : string) (title body : string)
    (author_name : json) (is_anonymous : bool) (owner_token : string)
| POST_reply (threadId : Z) (authorization : string) (body : string)
    (parent_id : option Z) (author_name : json) (is_anonymous : bool)
    (owner_token : string)
| DELETE_thread (threadId : Z) (x_owner_token : json)
| DELETE_reply (threadId replyId : Z) (x_owner_token : json).

(** What [await fetch(...)] comes back with: the promise rejects
    (transport error), or a response arrives with its [ok] flag and what
    [response.json()] will settle to. *)
Inductive fetched (A : Type) : Type :=
| Rejected (reason : exn)
| Responded (ok : bool) (payload : completion A).
Arguments Rejected {A} reason.
Arguments Responded {A} ok payload.

(** A request failed: transport error or non-success status. *)
Definition fetch_failed {A} (outcome : fetched A) : Prop :=
  match outcome with
  | Rejected _ => True
  | Responded ok _ => ok = false
  end.

(** ** Handlers: state, requests sent, exceptions *)

Record World := mkWorld {
  app : AppState;
  sent : list Request;
}.

Definition M (A : Type) : Type := World → completion A * World.

Global Instance M_ret : MRet M := λ A v w, (Normal v, w).
Global Instance M_bind : MBind M := λ A B f m w,
  match m w with
  | (Normal v, w') => f v w'
  | (Throw e, w') => (Throw e, w')
  end.

Definition throw {A} (e : exn) : M A := λ w, (Throw e, w).

Definition settle {A} (c : completion A) : M A := λ w, (c, w).

Definition try_catch {A} (body : M A) (handler : exn → M A) : M A := λ w,
  match body w with
  | (Normal v, w') => (Normal v, w')
  | (Throw e, w') => handler e w'
  end.

(** A state setter called. *)
Definition set (update : AppState → AppState) : M unit := λ w,
  (Normal tt, mkWorld (update (app w)) (sent w)).

(** [await fetch(request)]: the request goes out, then the outcome the
    network has for it comes back. *)
Definition fetch {A} (request : Request) (outcome : fetched A)
  : M (bool * completion A) := λ w,
  let w' := mkWorld (app w) (sent w ++ [request]) in
  match outcome with
  | Rejected reason => (Throw reason, w')
  | Responded ok payload => (Normal (ok, payload), w')
  end.

(** A handler runs from the state of the render it was created in. *)
Definition run {A} (handler : M A) (st : AppState) : completion A * World :=
  handler (mkWorld st []).

(** The state a handler leaves and the requests it has sent. *)
Definition after {A} (handler : M A) (st : AppState) : AppState :=
  app (run handler st).2.

Definition requests {A} (handler : M A) (st : AppState) : list Request :=
  sent (run handler st).2.

(** [loadThreads], lines 109-122. *)
Definition loadThreads (listing : fetched (list Thread)) : M unit :=
  set (setLoading (λ _, true));;
  set (setError (λ _, None));;
  try_catch
    (response ← fetch GET_threads listing;
     if negb response.1 then throw (Error "Could not load threads.")
     else
       data ← settle response.2;
       set (setThreads (λ _, data)))
    (λ loadError, set (setError (λ _, Some (message loadError))));;
  set (setLoading (λ _, false)).

(** [handleCreateThread], lines 157-196.  [st] holds the values the
    closure reads, [ownerToken] is what [generateOwnerToken()] returned,
    [creation] and [listing] are the outcomes of the two requests. *)
Definition handleCreateThread (st : AppState) (ownerToken : string)
    (creation : fetched ThreadCreateResponse)
    (listing : fetched (list Thread)) : M unit :=
  set (setError (λ _, None));;
  if negb (JS.truthy_opt_string (authToken st))
  then set (setError (λ _, Some "Please sign in to create a thread."))
  else
    let bearer := default "" (authToken st) in
    try_catch
      (let authorName :=
         if threadAnonymous st then JNull
         else or_json (Some (or_json (Some (JString (threadName st)))
                               (default JNull (member (authUser st) "username"))))
                JNull in
       response ← fetch (POST_thread bearer (threadTitle st) (threadBody st)
                           authorName (threadAnonymous st) ownerToken)
                    creation;
       if negb response.1 then throw (Error "Failed to create thread.")
       else
         createdThread ← settle response.2;
         set (setThreadTokens (λ prev,
                <[token_key (thread_id (created_thread createdThread)) :=
                    JString (JS.or_string
                               (Some (thread_owner_token createdThread))
                               ownerToken)]> prev));;
         set (setThreadTitle (λ _, ""));;
         set (setThreadBody (λ _, ""));;
         set (setThreadName (λ _, ""));;
         set (setThreadAnonymous (λ _, true));;
         loadThreads listing)
      (λ createError, set (setError (λ _, Some (message createError)))).

(** [handleCreateReply], lines 198-240. *)
Definition handleCreateReply (st : AppState) (threadId : Z)
    (ownerToken : string) (creation : fetched ReplyCreateResponse)
    (listing : fetched (list Thread)) : M unit :=
  set (setError (λ _, None));;
  if negb (JS.truthy_opt_string (authToken st))
  then set (setError (λ _, Some "Please sign in to reply."))
  else
    let bearer := default "" (authToken st) in
    try_catch
      (let replyName :=
         if default false (replyAnonymousByThread st !! threadId) then JNull
         else or_json (Some (or_json
                               (JString <$> replyNameByThread st !! threadId)
                               (default JNull (member (authUser st) "username"))))
                JNull in
       response ← fetch (POST_reply threadId bearer
                           (JS.or_string (replyBodyByThread st !! threadId) "")
                           (mjoin (replyTargetByThread st !! threadId))
                           replyName
                           (default true (replyAnonymousByThread st !! threadId))
                           ownerToken)
                    creation;
       if negb response.1 then throw (Error "Failed to create reply.")
       else
         createdReply ← settle response.2;
         set (setReplyTokens (λ prev,
                <[token_key (reply_id (created_reply createdReply)) :=
                    JString (JS.or_string
                               (Some (reply_owner_token createdReply))
                               ownerToken)]> prev));;
         set (setReplyBodyByThread (λ prev, <[threadId := ""]> prev));;
         set (setReplyNameByThread (λ prev, <[threadId := ""]> prev));;
         set (setReplyAnonymousByThread (λ prev, <[threadId := true]> prev));;
         set (setReplyTargetByThread (λ prev, <[threadId := None]> prev));;
         loadThreads listing)
      (λ createError, set (setError (λ _, Some (message createError)))).

(** [handleDeleteThread], lines 242-261. *)
Definition handleDeleteThread (st : AppState) (threadId : Z)
    (deletion : fetched unit) (listing : fetched (list Thread)) : M unit :=
  let ownerToken := threadTokens st !! token_key threadId in
  if negb (truthy_opt ownerToken) then mret tt
  else
    set (setError (λ _, None));;
    try_catch
      (response ← fetch (DELETE_thread threadId (default JNull ownerToken))
                    deletion;
       if negb response.1 then throw (Error "Failed to delete thread.")
       else
         set (setThreadTokens (λ prev, delete (token_key threadId) prev));;
         loadThreads listing)
      (λ deleteError, set (setError (λ _, Some (message deleteError)))).

(** [handleDeleteReply], lines 263-282. *)
Definition handleDeleteReply (st : AppState) (threadId replyId : Z)
    (deletion : fetched unit) (listing : fetched (list Thread)) : M unit :=
  let ownerToken := replyTokens st !! token_key replyId in
  if negb (truthy_opt ownerToken) then mret tt
  else
    set (setError (λ _, None));;
    try_catch
      (response ← fetch (DELETE_reply threadId replyId (default JNull ownerToken))
                    deletion;
       if negb response.1 then throw (Error "Failed to delete reply.")
       else
         set (setReplyTokens (λ prev, delete (token_key replyId) prev));;
         loadThreads listing)
      (λ deleteError, set (setError (λ _, Some (message deleteError)))).

(** ** Persistence and start-up *)

Section Store.

Variable JSON_parse : string → completion json.
Variable JSON_stringify : json → string.
Variable numeric_key : string → string.

(** The object a token map is, as [JSON.stringify] sees it. *)
Definition tokens_object (tokens : gmap string json) : json :=
  JObject (map_to_list tokens).

(** The four storage effects of lines 133-155, which run after every
    render that changed the cell they watch. *)
Definition persist (st : AppState) (storage : Storage) : Storage :=
  let storage :=
    <[threadTokenStorageKey :=
        JSON_stringify (tokens_object (threadTokens st))]> storage in
  let storage :=
    <[replyTokenStorageKey :=
        JSON_stringify (tokens_object (replyTokens st))]> storage in
  let storage :=
    if JS.truthy_opt_string (authToken st)
    then <[authTokenStorageKey := default "" (authToken st)]> storage
    else delete authTokenStorageKey storage in
  if truthy (authUser st)
  then <[authUserStorageKey := JSON_stringify (authUser st)]> storage
  else delete authUserStorageKey storage.

(** The initial values of the cells, lines 83-106: what a page load
    makes of the storage. *)
Definition initialState (storage : Storage) : completion AppState :=
  threadTokens ← readTokenMap JSON_parse numeric_key storage threadTokenStorageKey;
  replyTokens ← readTokenMap JSON_parse numeric_key storage replyTokenStorageKey;
  let authToken := storage !! authTokenStorageKey in
  authUser ← readStoredAuthUser JSON_parse storage;
  Normal (mkAppState [] false None "" "" "" true ∅ ∅ ∅ ∅
            threadTokens replyTokens authToken authUser).

(** What the platform grants for the object a token map is: its JSON
    text is not empty, [JSON.parse] reads it back, and every key is
    the spelling of a number, which line 43 leaves as it is. *)
Definition reads_back (tokens : gmap string json) : Prop :=
  JSON_stringify (tokens_object tokens) ≠ ""
  ∧ JSON_parse (JSON_stringify (tokens_object tokens))
    = Normal (tokens_object tokens)
  ∧ map_Forall (λ k _, numeric_key k = k) tokens.

(** A reload of the page: the effects have written the state, a fresh
    component reads it back. *)
Definition reload (st : AppState) (storage : Storage) : completion AppState :=
  initialState (persist st storage).

End Store.

(** ** The two other variants of the component *)

(** The client without accounts (unnamed/part_001): there is no session
    cell, lines 387-388 give [ThreadItem] the token test alone. *)
Module Anonymous.

Definition canDeleteThread (threadTokens : gmap string json) (threadId : Z)
  : bool :=
  truthy_opt (threadTokens !! token_key threadId).

Definition canDeleteReply (replyTokens : gmap string json) (replyId : Z)
  : bool :=
  truthy_opt (replyTokens !! token_key replyId).

End Anonymous.

(** The client with routes (unnamed/part_000): [ForumPage] passes the token
    test alone (lines 713-714) and is itself shown only behind
    [RequireAuth] (lines 372 and 413-417). *)
Module Routed.

Inductive routed (A : Type) : Type :=
| Navigate (to : string)
| Shown (page : A).
Arguments Navigate {A} to.
Arguments Shown {A} page.

Definition RequireAuth {A} (isAuthed : bool) (children : A) : routed A :=
  if negb isAuthed then Navigate "/auth" else Shown children.

Definition canDeleteThread (st : AppState) (threadId : Z) : routed bool :=
  RequireAuth (isAuthed st)
    (truthy_opt (threadTokens st !! token_key threadId)).

Definition canDeleteReply (st : AppState) (replyId : Z) : routed bool :=
  RequireAuth (isAuthed st)
    (truthy_opt (replyTokens st !! token_key replyId)).

End Routed.

(** ** Instances of the platform functions, for the examples *)

Module Sample.

(** The digits of a timestamp read as one number.  On timestamps of one
    format and one time zone, such as ["2024-05-01T10:05:00Z"], it orders
    as [Date] does. *)
Definition digit_value (c : ascii) : option Z :=
  let n := Z.of_N (N_of_ascii c) in
  if (48 <=? n) && (n <=? 57) then Some (n - 48) else None.

Fixpoint digits_from (acc : Z) (s : string) : Z :=
  match s with
  | EmptyString => acc
  | String c rest =>
      match digit_value c with
      | Some d => digits_from (10 * acc + d) rest
      | None => digits_from acc rest
      end
  end.

Definition Date_value (s : string) : Z := digits_from 0 s.

(** Which strings are dates: here the timestamps of the one form
    [YYYY-MM-DDThh:mm:ssZ], where [d] in the pattern stands for a digit. *)
Fixpoint matches (pattern s : string) : bool :=
  match pattern, s with
  | EmptyString, EmptyString => true
  | String p pattern', String c s' =>
      (if decide (p = "d"%char) then bool_decide (is_Some (digit_value c))
       else bool_decide (p = c))
      && matches pattern' s'
  | _, _ => false
  end.

(** The text of a date is left as the timestamp itself; on a string that
    is no date [format] throws its [RangeError]. *)
Definition DateTimeFormat_format (s : string) : completion string :=
  if matches "dddd-dd-ddTdd:dd:ddZ" s then Normal s
  else Throw (Error "Invalid time value").

(** A JSON printer and parser for the objects a token map serialises
    to: string members, no escape sequences. *)
Definition dquote : ascii := "034"%char.

Definition quoted (s : string) : string :=
  String dquote (s +:+ String dquote EmptyString).

Definition print_value (v : json) : string :=
  match v with
  | JString s => quoted s
  | JNumber n => pretty n
  | JBool true => "true"
  | JBool false => "false"
  | _ => "null"
  end.

Fixpoint print_members (members : list (string * json)) : string :=
  match members with
  | [] => ""
  | [(k, v)] => quoted k +:+ ":" +:+ print_value v
  | (k, v) :: rest =>
      quoted k +:+ ":" +:+ print_value v +:+ "," +:+ print_members rest
  end.

Definition JSON_stringify (v : json) : string :=
  match v with
  | JObject members => "{" +:+ print_members members +:+ "}"
  | _ => print_value v
  end.

(** The characters up to the closing quote, and what follows it. *)
Fixpoint read_string (s : string) : option (string * string) :=
  match s with
  | EmptyString => None
  | String c rest =>
      if decide (c = dquote) then Some (EmptyString, rest)
      else '(text, rest') ← read_string rest; Some (String c text, rest')
  end.

Fixpoint parse_members (fuel : nat) (s : string)
  : option (list (string * json)) :=
  match fuel with
  | O => None
  | S fuel =>
      match s with
      | String q rest =>
          if decide (q = dquote) then
            '(k, rest) ← read_string rest;
            match rest with
            | String ":" (String q' rest) =>
                if decide (q' = dquote) then
                  '(v, rest) ← read_string rest;
                  match rest with
                  | "}" => Some [(k, JString v)]
                  | String "," rest =>
                      tail ← parse_members fuel rest;
                      Some ((k, JString v) :: tail)
                  | _ => None
                  end
                else None
            | _ => None
            end
          else None
      | EmptyString => None
      end
  end.

Definition JSON_parse (s : string) : completion json :=
  match s with
  | "{}" => Normal (JObject [])
  | String "{" rest =>
      match parse_members (String.length s) rest with
      | Some members => Normal (JObject members)
      | None => Throw (Error "Unexpected token in JSON")
      end
  | _ => Throw (Error "Unexpected token in JSON")
  end.

(** [String(Number(k))] on the spellings [String] gives integers; any
    other key is sent to ["NaN"]. *)
Fixpoint all_digits (s : string) : bool :=
  match s with
  | EmptyString => true
  | String c rest => bool_decide (is_Some (digit_value c)) && all_digits rest
  end.

Definition canonical_natural (s : string) : bool :=
  match s with
  | EmptyString => false
  | "0" => true
  | String "0" _ => false
  | _ => all_digits s
  end.

Definition numeric_key (k : string) : string :=
  match k with
  | String "-" rest =>
      if canonical_natural rest && negb (String.eqb rest "0") then k else "NaN"
  | _ => if canonical_natural k then k else "NaN"
  end.

Definition reply (id : Z) (parent : option Z) (created_at : string) : Reply :=
  mkReply id 1 parent "text" None true created_at.

(** A browser that created thread 1 and reply 7. *)
Definition tokens (id : Z) (token : string) : gmap string json :=
  {[token_key id := JString token]}.

Definition user : json := json_of_AuthUser (mkAuthUser 3 "ada" "ada@example.org").

Definition signed_in : AppState :=
  mkAppState [] false None "" "" "" true ∅ ∅ ∅ ∅
    (tokens 1 "abc123") (tokens 7 "def456") (Some "bearer") user.

Definition signed_out : AppState :=
  mkAppState [] false None "" "" "" true ∅ ∅ ∅ ∅
    (tokens 1 "abc123") (tokens 7 "def456") None JNull.

End Sample.

(** Token maps and session of two states agree. *)
Definition same_ownership_and_session (st st' : AppState) : Prop :=
  threadTokens st' = threadTokens st
  ∧ replyTokens st' = replyTokens st
  ∧ authToken st' = authToken st
  ∧ authUser st' = authUser st.

(** ** Further parts of the component *)

(** *** The rendered tree, div by div *)

Definition element_depth (e : Element) : nat :=
  match e with ReplyDiv _ d _ _ _ => d end.

Definition element_nested (e : Element) : list Element :=
  match e with ReplyDiv _ _ _ _ nested => nested end.

Definition element_replyButton (e : Element) : bool :=
  match e with ReplyDiv _ _ b _ _ => b end.

Definition element_deleteButton (e : Element) : bool :=
  match e with ReplyDiv _ _ _ b _ => b end.

(** A div and every div nested in it, in document order. *)
Fixpoint divs (e : Element) : list Element :=
  match e with
  | ReplyDiv _ _ _ _ nested => e :: flat_map divs nested
  end.

Definition all_divs (es : list Element) : list Element :=
  flat_map divs es.

(** *** Outcomes of the requests of a handler *)

(** A create request has succeeded when the status is a success and the
    body can be read; a delete request when the status is a success, its
    body is not read. *)
Definition created {A} (outcome : fetched A) : Prop :=
  ∃ payload, outcome = Responded true (Normal payload).

Definition deleted (outcome : fetched unit) : Prop :=
  ∃ payload, outcome = Responded true payload.

(** The requests of a run: none, the own request of the handler alone
    when it has not succeeded, or the own request and then the GET of the
    thread list when it has. *)
Definition sent_once (sent : list Request) (own : Request → Prop)
    (succeeded : Prop) : Prop :=
  sent = []
  ∨ (∃ request, own request ∧ sent = [request] ∧ ¬ succeeded)
  ∨ (∃ request, own request ∧ sent = [request; GET_threads] ∧ succeeded).

(** The author name a create request carries (lines 166 and 208-210). *)
Definition thread_author (st : AppState) : json :=
  if threadAnonymous st then JNull
  else or_json (Some (or_json (Some (JString (threadName st)))
                        (default JNull (member (authUser st) "username"))))
         JNull.

Definition reply_author (st : AppState) (threadId : Z) : json :=
  if default false (replyAnonymousByThread st !! threadId) then JNull
  else or_json (Some (or_json (JString <$> replyNameByThread st !! threadId)
                        (default JNull (member (authUser st) "username"))))
         JNull.

(** The token a create handler records (lines 185 and 229):
    [owner_token || ownerToken]. *)
Definition recorded_token (answered generated : string) : json :=
  JString (JS.or_string (Some answered) generated).

(** *** generateOwnerToken (App.tsx, lines 59-62) *)

(** [s.replace(/-/g, "")]. *)
Fixpoint remove_dashes (s : string) : string :=
  match s with
  | EmptyString => EmptyString
  | String c rest =>
      if decide (c = "-"%char) then remove_dashes rest
      else String c (remove_dashes rest)
  end.

(** [s.slice(start, stop)] for indices that are not negative. *)
Definition slice (s : string) (start stop : nat) : string :=
  substring start (stop - start) s.

(** The digits of [Number.prototype.toString(36)] on an integer. *)
Definition base36_digit (d : N) : ascii :=
  if (d <? 10)%N then ascii_of_N (48 + d) else ascii_of_N (87 + d).

Fixpoint base36_go (fuel : nat) (n : N) (acc : string) : string :=
  match fuel with
  | O => acc
  | S fuel' =>
      if (n =? 0)%N then acc
      else base36_go fuel' (n `div` 36)%N
             (String (base36_digit (n `mod` 36)%N) acc)
  end.

Definition base36_N (n : N) : string :=
  if (n =? 0)%N then "0" else base36_go (N.size_nat n) n EmptyString.

(** [n.toString(36)] for an integral [n]. *)
Definition toString36 (n : Z) : string :=
  match n with
  | Z0 => "0"
  | Zpos p => base36_N (Npos p)
  | Zneg p => String "-" (base36_N (Npos p))
  end.

(** [generateOwnerToken]: [randomUUID] is the result of
    [window.crypto.randomUUID()] where the browser has it, [now] is
    [Date.now()] and [random36] is the text [Math.random().toString(36)]. *)
Definition generateOwnerToken (randomUUID : option string) (now : Z)
    (random36 : string) : string :=
  match randomUUID with
  | Some uuid => remove_dashes uuid
  | None => toString36 now +:+ slice random36 2 12
  end.

(** *** The theme (App.tsx, lines 78-82, 128-131 and 337) *)

Inductive Theme : Type := light | dark.

Definition theme_name (theme : Theme) : string :=
  match theme with
  | light => "light"
  | dark => "dark"
  end.

(** The initial value of the cell; [prefersDark] is what
    [matchMedia("(prefers-color-scheme: dark)").matches] answers. *)
Definition initialTheme (storage : Storage) (prefersDark : bool) : Theme :=
  let savedTheme := storage !! "forum-theme" in
  if decide (savedTheme = Some "light") then light
  else if decide (savedTheme = Some "dark") then dark
  else if prefersDark then dark else light.

(** The effect of lines 128-131 on the storage. *)
Definition persistTheme (theme : Theme) (storage : Storage) : Storage :=
  <["forum-theme" := theme_name theme]> storage.

(** The update of the toggle button, line 337. *)
Definition toggleTheme (prev : Theme) : Theme :=
  match prev with
  | light => dark
  | dark => light
  end.

(** *** Signing in and out (App.tsx, lines 98-106 and 284-321) *)

Definition setAuthToken (f : option string → option string) (st : AppState)
  : AppState :=
  mkAppState (threads st) (loading st) (error st) (threadTitle st)
    (threadBody st) (threadName st) (threadAnonymous st)
    (replyBodyByThread st) (replyNameByThread st)
    (replyAnonymousByThread st) (replyTargetByThread st) (threadTokens st)
    (replyTokens st) (f (authToken st)) (authUser st).

Definition setAuthUser (f : json → json) (st : AppState) : AppState :=
  mkAppState (threads st) (loading st) (error st) (threadTitle st)
    (threadBody st) (threadName st) (threadAnonymous st)
    (replyBodyByThread st) (replyNameByThread st)
    (replyAnonymousByThread st) (replyTargetByThread st) (threadTokens st)
    (replyTokens st) (authToken st) (f (authUser st)).

Inductive AuthMode : Type := signin | signup.

(** The cells of the account form. *)
Record AuthCells := mkAuthCells {
  authMode : AuthMode;
  authName : string;
  authEmail : string;
  authPassword : string;
  authMessage : option string;
  authError : option string;
  authLoading : bool;
}.

(** [POST /auth/signin] or [POST /auth/signup] with its body. *)
Record AuthRequest := mkAuthRequest {
  auth_endpoint : string;
  auth_username : string;
  auth_email : string;
  auth_password : string;
}.

(** The body of an answer of the two endpoints, with the fields the
    handlers read; a field is [None] when the body lacks it. *)
Record AuthPayload := mkAuthPayload {
  payload_detail : option json;
  payload_access_token : option string;
  payload_user : option json;
}.

Definition join_strings (separator : string) (items : list string) : string :=
  match items with
  | [] => EmptyString
  | first :: rest => fold_left (λ text item, text +:+ separator +:+ item) rest first
  end.

(** [String(v)], the message [new Error(v)] gets. *)
Fixpoint ToString (v : json) : string :=
  match v with
  | JNull => "null"
  | JBool true => "true"
  | JBool false => "false"
  | JNumber n => JS.String_of_number n
  | JString s => s
  | JArray items =>
      join_strings ","
        (map (λ item, match item with JNull => EmptyString | _ => ToString item end)
           items)
  | JObject _ => "[object Object]"
  end.

Record AuthWorld := mkAuthWorld {
  auth_app : AppState;
  auth_cells : AuthCells;
  auth_sent : list AuthRequest;
}.

Definition AuthM (A : Type) : Type := AuthWorld → completion A * AuthWorld.

Global Instance AuthM_ret : MRet AuthM := λ A v w, (Normal v, w).
Global Instance AuthM_bind : MBind AuthM := λ A B f m w,
  match m w with
  | (Normal v, w') => f v w'
  | (Throw e, w') => (Throw e, w')
  end.

Definition auth_throw {A} (e : exn) : AuthM A := λ w, (Throw e, w).

Definition auth_settle {A} (c : completion A) : AuthM A := λ w, (c, w).

Definition auth_try_catch {A} (body : AuthM A) (handler : exn → AuthM A)
  : AuthM A := λ w,
  match body w with
  | (Normal v, w') => (Normal v, w')
  | (Throw e, w') => handler e w'
  end.

(** A setter of a cell of [App] called. *)
Definition set_app (update : AppState → AppState) : AuthM unit := λ w,
  (Normal tt, mkAuthWorld (update (auth_app w)) (auth_cells w) (auth_sent w)).

(** A setter of a cell of the form called. *)
Definition set_cells (update : AuthCells → AuthCells) : AuthM unit := λ w,
  (Normal tt, mkAuthWorld (auth_app w) (update (auth_cells w)) (auth_sent w)).

Definition setAuthPassword (v : string) (c : AuthCells) : AuthCells :=
  mkAuthCells (authMode c) (authName c) (authEmail c) v (authMessage c)
    (authError c) (authLoading c).

Definition setAuthMessage (v : option string) (c : AuthCells) : AuthCells :=
  mkAuthCells (authMode c) (authName c) (authEmail c) (authPassword c) v
    (authError c) (authLoading c).

Definition setAuthError (v : option string) (c : AuthCells) : AuthCells :=
  mkAuthCells (authMode c) (authName c) (authEmail c) (authPassword c)
    (authMessage c) v (authLoading c).

Definition setAuthLoading (v : bool) (c : AuthCells) : AuthCells :=
  mkAuthCells (authMode c) (authName c) (authEmail c) (authPassword c)
    (authMessage c) (authError c) v.

Definition auth_fetch {A} (request : AuthRequest) (outcome : fetched A)
  : AuthM (bool * completion A) := λ w,
  let w' := mkAuthWorld (auth_app w) (auth_cells w) (auth_sent w ++ [request]) in
  match outcome with
  | Rejected reason => (Throw reason, w')
  | Responded ok payload => (Normal (ok, payload), w')
  end.

Definition auth_run {A} (handler : AuthM A) (st : AppState) (c : AuthCells)
  : completion A * AuthWorld :=
  handler (mkAuthWorld st c []).

Section Account.

(** [String.prototype.trim]. *)
Variable trim : string → string.
(** [JSON.stringify]. *)
Variable JSON_stringify : json → string.

Definition auth_request (c : AuthCells) : AuthRequest :=
  mkAuthRequest
    (match authMode c with signin => "signin" | signup => "signup" end)
    (trim (authName c)) (trim (authEmail c)) (authPassword c).

Definition success_message (mode : AuthMode) : string :=
  match mode with
  | signin => "Signed in successfully."
  | signup => "Account created."
  end.

(** [handleAuthSubmit] of App.tsx, lines 284-314; [c] holds the cells the
    closure reads. *)
Definition handleAuthSubmit (c : AuthCells) (answer : fetched AuthPayload)
  : AuthM unit :=
  set_cells (setAuthError None);;
  set_cells (setAuthMessage None);;
  set_cells (setAuthLoading true);;
  auth_try_catch
    (response ← auth_fetch (auth_request c) answer;
     if negb response.1 then
       payload ← auth_settle response.2;
       auth_throw (Error (ToString (or_json (payload_detail payload)
                                      (JString "Authentication failed."))))
     else
       payload ← auth_settle response.2;
       set_app (setAuthToken (λ _, payload_access_token payload));;
       set_app (setAuthUser (λ _, default JNull (payload_user payload)));;
       set_cells (setAuthMessage (Some (success_message (authMode c))));;
       set_cells (setAuthPassword ""))
    (λ authErr, set_cells (setAuthError (Some (message authErr))));;
  set_cells (setAuthLoading false).

(** [handleSignOut], lines 316-321. *)
Definition handleSignOut : AuthM unit :=
  set_app (setAuthToken (λ _, None));;
  set_app (setAuthUser (λ _, JNull));;
  set_cells (setAuthMessage None);;
  set_cells (setAuthPassword "").

(** The text of a failed answer in the client with routes
    (unnamed/part_000, lines 308-321). *)
Definition detail_text (payload : option AuthPayload) : string :=
  match payload ≫= payload_detail with
  | Some (JString detail) => detail
  | Some (JArray items) =>
      join_strings ", "
        (map (λ item,
                match member item "msg" with
                | Some (JString msg) => msg
                | _ => JSON_stringify item
                end)
           items)
  | Some detail =>
      if truthy detail then JSON_stringify detail else "Authentication failed."
  | None => "Authentication failed."
  end.

(** [handleAuthSubmit] of the client with routes (unnamed/part_000,
    lines 289-335); a body that cannot be read counts as [null], and
    [onSuccess] is the navigation to the forum page. *)
Definition Routed_handleAuthSubmit (c : AuthCells)
    (answer : fetched (option AuthPayload)) (onSuccess : AuthM unit)
  : AuthM unit :=
  set_cells (setAuthError None);;
  set_cells (setAuthMessage None);;
  set_cells (setAuthLoading true);;
  auth_try_catch
    (response ← auth_fetch (auth_request c) answer;
     let payload :=
       match response.2 with
       | Normal payload => payload
       | Throw _ => None
       end in
     if negb response.1 then auth_throw (Error (detail_text payload))
     else
       if negb (JS.truthy_opt_string (payload ≫= payload_access_token))
          || negb (truthy_opt (payload ≫= payload_user))
       then auth_throw (Error "Authentication failed.")
       else
         set_app (setAuthToken (λ _, payload ≫= payload_access_token));;
         set_app (setAuthUser (λ _, default JNull (payload ≫= payload_user)));;
         set_cells (setAuthMessage (Some (success_message (authMode c))));;
         set_cells (setAuthPassword "");;
         onSuccess)
    (λ authErr, set_cells (setAuthError (Some (message authErr))));;
  set_cells (setAuthLoading false).

End Account.

(** *** A parser of the JSON literals, for the examples *)

Definition literal_parse (s : string) : completion json :=
  if decide (s = "null") then Normal JNull
  else if decide (s = "true") then Normal (JBool true)
  else if decide (s = "false") then Normal (JBool false)
  else Sample.JSON_parse s.

(** * Properties *)

(** ** The stable sort *)

Section SortByKey.

Context {A : Type} (key : A → Z) (cmp : A → A → Z).
Hypothesis cmp_key : ∀ a b, cmp a b = key a - key b.

Local Abbreviation le := (λ a b : A, key a ≤ key b).

Lemma sort_insert_Permutation x l : JS.sort_insert cmp x l ≡ₚ x :: l.
Proof.
  induction l as [|y l IH]; simpl; [done|].
  destruct (0 <? cmp x y); [|done].
  rewrite IH. apply Permutation_swap.
Qed.

Lemma sort_Permutation l : JS.sort cmp l ≡ₚ l.
Proof.
  induction l as [|x l IH]; simpl; [done|].
  by rewrite sort_insert_Permutation, IH.
Qed.

Lemma sort_insert_sorted x l :
  StronglySorted le l → StronglySorted le (JS.sort_insert cmp x l).
Proof.
  induction 1 as [|y l Hl IH Hy]; simpl.
  - repeat constructor.
  - destruct (Z.ltb_spec 0 (cmp x y)) as [Hlt|Hge]; rewrite cmp_key in *.
    + constructor; [done|].
      rewrite sort_insert_Permutation. constructor; [lia|done].
    + constructor; [by constructor|].
      constructor; [lia|].
      eapply Forall_impl; [exact Hy|]. simpl. intros; lia.
Qed.

Lemma sort_sorted l : StronglySorted le (JS.sort cmp l).
Proof.
  induction l; simpl; [constructor|]. by apply sort_insert_sorted.
Qed.



End SortByKey.

(** ** Keys of the grouping *)

(** The decimal spelling of a number never starts with the letter of
    ["root"]: no reply id can be mistaken for the synthetic root key. *)
Lemma pretty_N_go_first_char (x : N) (s : string) (c : ascii) (t : string) :
  (∀ d, (d < 10)%N → pretty_N_char d ≠ c) →
  (∀ t', s ≠ String c t') →
  pretty_N_go x s ≠ String c t.
Proof.
  intros Hc. revert s t.
  induction (N.lt_wf_0 x) as [x _ IH]; intros s t Hs.
  assert (x = 0 ∨ 0 < x)%N as [->|Hpos] by lia.
  - rewrite pretty_N_go_0. apply Hs.
  - rewrite pretty_N_go_step by done.
    apply IH; [by apply N.div_lt|].
    intros t' [= Hd _]. by apply (Hc (x `mod` 10)%N); [apply N.mod_lt|].
Qed.

Lemma pretty_N_char_not_r d : (d < 10)%N → pretty_N_char d ≠ "r"%char.
Proof. intros _. unfold pretty_N_char. by repeat case_match. Qed.

Lemma String_of_number_not_root n : JS.String_of_number n ≠ "root".
Proof.
  unfold JS.String_of_number, pretty, pretty_Z.
  destruct n as [|p|p]; [done| |by intros [=]].
  unfold pretty, pretty_positive, pretty, pretty_N. case_decide; [done|].
  apply pretty_N_go_first_char; [apply pretty_N_char_not_r|done].
Qed.

Global Instance parent_key_inj : Inj (=) (=) parent_key.
Proof.
  intros [a|] [b|] H; simpl in H; try done.
  - f_equal. by apply (inj (pretty (A:=Z))).
  - by apply String_of_number_not_root in H.
  - symmetry in H. by apply String_of_number_not_root in H.
Qed.

(** ** The grouping *)

Section Grouping.

Variable Date_value : string → Z.

Local Abbreviation time r := (Date_value (reply_created_at r)).
Local Abbreviation has_parent p := (λ r : Reply, reply_parent_id r = p).

Lemma fold_group_push_lookup replies acc p :
  fold_left group_push replies acc !! parent_key p
  = match filter (has_parent p) replies with
    | [] => acc !! parent_key p
    | g => Some (default [] (acc !! parent_key p) ++ g)
    end.
Proof.
  revert acc. induction replies as [|r replies IH]; intros acc; simpl; [done|].
  rewrite IH, filter_cons. unfold group_push. simpl.
  case_decide as Hr.
  - rewrite Hr, lookup_insert_eq. simpl.
    destruct (filter _ replies); simpl; [done|].
    by rewrite <- app_assoc.
  - rewrite lookup_insert_ne; [done|].
    intros Hk. by apply (inj parent_key) in Hk.
Qed.

Lemma group_replies_lookup replies p :
  group_replies replies !! parent_key p
  = match filter (has_parent p) replies with
    | [] => None
    | g => Some g
    end.
Proof.
  unfold group_replies. rewrite fold_group_push_lookup, lookup_empty.
  by destruct (filter _ replies).
Qed.


Lemma repliesByParent_lookup replies p :
  repliesByParent Date_value replies !! parent_key p
  = match filter (has_parent p) replies with
    | [] => None
    | g => Some (JS.sort (by_created_at Date_value) g)
    end.
Proof.
  unfold repliesByParent. rewrite lookup_fmap, group_replies_lookup.
  by destruct (filter _ replies).
Qed.

Lemma children_of_sort replies p :
  children_of Date_value replies p
  = JS.sort (by_created_at Date_value) (filter (has_parent p) replies).
Proof.
  unfold children_of. rewrite repliesByParent_lookup.
  by destruct (filter _ replies).
Qed.

Lemma children_of_Permutation replies p :
  children_of Date_value replies p ≡ₚ filter (has_parent p) replies.
Proof. rewrite children_of_sort. apply sort_Permutation. Qed.

Lemma elem_of_children_of replies p r :
  r ∈ children_of Date_value replies p ↔ r ∈ replies ∧ reply_parent_id r = p.
Proof.
  rewrite children_of_Permutation, list_elem_of_filter. tauto.
Qed.

End Grouping.

(** ** The author line *)

(** C10: the displayed author is "Anonymous" whenever the anonymity flag
    is set, whatever the name; without the flag it is the name when the
    name is present and not empty, and "Unknown" when the name is null or
    empty. *)
Theorem formatAuthor_cases (name : option string) (c : ascii) (s : string) :
  formatAuthor name true = "Anonymous"
  ∧ formatAuthor (Some (String c s)) false = String c s
  ∧ formatAuthor None false = "Unknown"
  ∧ formatAuthor (Some "") false = "Unknown".
Proof. by destruct name. Qed.

(** ** Groups of the tree builder *)



(** ** The depth-first expansion *)

Lemma elem_of_sequence (x : Reply * nat) (es : list Element) :
  x ∈ sequence es ↔ ∃ e, e ∈ es ∧ x ∈ flatten e.
Proof.
  unfold sequence. rewrite list_elem_of_In, in_flat_map.
  split; intros (e & He & Hx); exists e; by rewrite ?list_elem_of_In in *.
Qed.

Lemma Forall2_elem_of_l {A B} (R : A → B → Prop) l k x :
  Forall2 R l k → x ∈ l → ∃ y, y ∈ k ∧ R x y.
Proof.
  intros HR (i & Hi)%list_elem_of_lookup.
  destruct (Forall2_lookup_l _ _ _ _ _ HR Hi) as (y & Hy & HRxy).
  exists y. split; [|done]. apply list_elem_of_lookup. by exists i.
Qed.

Lemma Forall2_elem_of_r {A B} (R : A → B → Prop) l k y :
  Forall2 R l k → y ∈ k → ∃ x, x ∈ l ∧ R x y.
Proof.
  intros HR (i & Hi)%list_elem_of_lookup.
  destruct (Forall2_lookup_r _ _ _ _ _ HR Hi) as (x & Hx & HRxy).
  exists x. split; [|done]. apply list_elem_of_lookup. by exists i.
Qed.

(** Blocks that are free of duplicates and pairwise disjoint concatenate
    to a list free of duplicates. *)
Lemma NoDup_flat_map_by {A B C} (h : A → C) (g : A → list B) (l : list A) :
  NoDup (h <$> l) →
  (∀ x, x ∈ l → NoDup (g x)) →
  (∀ x y z, x ∈ l → y ∈ l → h x ≠ h y → z ∈ g x → z ∉ g y) →
  NoDup (flat_map g l).
Proof.
  induction l as [|a l IH]; simpl; intros Hh Hg Hdisj; [constructor|].
  apply NoDup_cons in Hh as [Ha Hl].
  apply NoDup_app. split; [|split].
  - apply Hg. left.
  - intros z Hz Hz'. apply list_elem_of_In, in_flat_map in Hz' as (b & Hb & Hzb).
    apply list_elem_of_In in Hb, Hzb.
    apply (Hdisj a b z); [left|by right| |done..].
    intros Heq. apply Ha. rewrite Heq. by apply list_elem_of_fmap_2.
  - apply IH; [done|..].
    + intros x Hx. apply Hg. by right.
    + intros x y z Hx Hy. apply Hdisj; by right.
Qed.

(** ** [map] with a callback that may throw *)

Lemma Array_map_Normal {A B} (f : A → option (completion B)) xs ys :
  Array_map f xs = Some (Normal ys)
  ↔ Forall2 (λ x y, f x = Some (Normal y)) xs ys.
Proof.
  revert ys. induction xs as [|x xs IH]; intros ys; simpl.
  - split; [intros [= <-]; constructor|by inversion 1].
  - split.
    + destruct (f x) as [[y|e]|] eqn:Hx; simpl; [|done..].
      destruct (Array_map f xs) as [[ys'|e]|]; simpl; [|done..].
      intros [= <-]. constructor; [done|by apply IH].
    + intros Hall. inversion Hall as [|? y ? ys' Hy Hrest]; subst.
      rewrite Hy. simpl. apply IH in Hrest. by rewrite Hrest.
Qed.

Lemma Array_map_Throw {A B} (f : A → option (completion B)) xs e :
  Array_map f xs = Some (Throw e) → ∃ x, x ∈ xs ∧ f x = Some (Throw e).
Proof.
  induction xs as [|x xs IH]; simpl; [done|].
  destruct (f x) as [[y|e']|] eqn:Hx; simpl; [| |done].
  - destruct (Array_map f xs) as [[ys|e']|]; simpl; [done| |done].
    intros [= ->]. destruct IH as (x' & Hin & Hx'); [done|].
    exists x'. split; [by right|done].
  - intros [= ->]. exists x. split; [by left|done].
Qed.

Lemma Array_map_is_Some {A B} (f : A → option (completion B)) xs :
  Forall (λ x, is_Some (f x)) xs → is_Some (Array_map f xs).
Proof.
  induction 1 as [|x xs [[y|e] Hx] _ [[ys|e'] Hxs]]; simpl;
    rewrite ?Hx; simpl; rewrite ?Hxs; by eexists.
Qed.

(** A callback that answers more often changes no result there is. *)
Lemma Array_map_mono {A B} (f g : A → option (completion B)) xs result :
  (∀ x r, x ∈ xs → f x = Some r → g x = Some r) →
  Array_map f xs = Some result → Array_map g xs = Some result.
Proof.
  revert result. induction xs as [|x xs IH]; intros result Hfg; simpl; [done|].
  destruct (f x) as [r|] eqn:Hx; [|done].
  rewrite (Hfg x r (list_elem_of_here _ _) Hx).
  destruct r as [y|e]; simpl; [|done].
  destruct (Array_map f xs) as [r'|] eqn:Hxs; [|done].
  rewrite (IH r'); [done| |done].
  intros x' r'' Hin. apply Hfg. by right.
Qed.

Section Expansion.

Variable Date_value : string → Z.
Variable DateTimeFormat_format : string → completion string.
Variable canInteract : bool.
Variable canDeleteReply : Z → bool.
Variable replies : list Reply.

Local Abbreviation render fuel :=
  (renderReplies DateTimeFormat_format canInteract canDeleteReply fuel
     (repliesByParent Date_value replies)).
Local Abbreviation div reply depth nested :=
  (ReplyDiv reply depth canInteract (canDeleteReply (reply_id reply)) nested).
Local Abbreviation children := (children_of Date_value replies).
Local Abbreviation under := (nested_under replies).
Local Abbreviation date reply :=
  (formatDate DateTimeFormat_format (reply_created_at reply)).
Local Abbreviation callback fuel depth :=
  (λ reply,
     and_then (Some (date reply)) (λ _,
     and_then (render fuel (Some (reply_id reply)) (S depth)) (λ nested,
     Some (Normal (div reply depth nested))))).

(** *** What one call returns *)

Lemma render_S fuel p d :
  render (S fuel) p d = Array_map (callback fuel d) (children p).
Proof. reflexivity. Qed.

Lemma callback_Normal fuel d c e :
  callback fuel d c = Some (Normal e)
  ↔ ∃ text nested, date c = Normal text
                   ∧ render fuel (Some (reply_id c)) (S d) = Some (Normal nested)
                   ∧ e = div c d nested.
Proof.
  cbv beta. destruct (date c) as [text|err]; simpl.
  - destruct (render fuel (Some (reply_id c)) (S d)) as [[nested|err]|]; simpl.
    + split; [intros [= <-]; by exists text, nested|].
      by intros (? & ? & _ & [= <-] & ->).
    + split; [done|]. by intros (? & ? & _ & ? & _).
    + split; [done|]. by intros (? & ? & _ & ? & _).
  - split; [done|]. by intros (? & ? & ? & _).
Qed.

Lemma render_callbacks fuel p d out :
  render (S fuel) p d = Some (Normal out) →
  Forall2 (λ c e, ∃ text nested,
             date c = Normal text
             ∧ render fuel (Some (reply_id c)) (S d) = Some (Normal nested)
             ∧ e = div c d nested)
          (children p) out.
Proof.
  rewrite render_S. intros H%Array_map_Normal.
  eapply Forall2_impl; [exact H|]. intros c e Hce. by apply callback_Normal.
Qed.

Lemma render_elements fuel p d out :
  render (S fuel) p d = Some (Normal out) →
  Forall2 (λ c e, ∃ nested,
             render fuel (Some (reply_id c)) (S d) = Some (Normal nested)
             ∧ e = div c d nested)
          (children p) out.
Proof.
  intros H%render_callbacks.
  eapply Forall2_impl; [exact H|]. cbv beta.
  intros c e (text & nested & _ & Hnested & ->). by exists nested.
Qed.

Lemma render_element fuel p d out e :
  render (S fuel) p d = Some (Normal out) → e ∈ out →
  ∃ c nested, c ∈ replies ∧ reply_parent_id c = p
              ∧ render fuel (Some (reply_id c)) (S d) = Some (Normal nested)
              ∧ e = div c d nested.
Proof.
  intros H%render_elements He.
  destruct (Forall2_elem_of_r _ _ _ _ H He) as (c & Hc & nested & Hn & ->).
  apply elem_of_children_of in Hc as [??]. by exists c, nested.
Qed.

(** The date of every element of a result has been formatted. *)
Lemma render_element_date fuel p d out e :
  render (S fuel) p d = Some (Normal out) → e ∈ out →
  ∃ text, date (element_reply e) = Normal text.
Proof.
  intros H%render_callbacks He.
  destruct (Forall2_elem_of_r _ _ _ _ H He)
    as (c & Hc & text & nested & Htext & _ & ->).
  by exists text.
Qed.

Lemma render_child fuel p d out c :
  render (S fuel) p d = Some (Normal out) → c ∈ replies → reply_parent_id c = p →
  ∃ nested, render fuel (Some (reply_id c)) (S d) = Some (Normal nested)
            ∧ div c d nested ∈ out.
Proof.
  intros H%render_elements Hc Hp.
  assert (c ∈ children p) as Hin by (by apply elem_of_children_of).
  destruct (Forall2_elem_of_l _ _ _ _ H Hin) as (e & He & nested & Hn & ->).
  by exists nested.
Qed.

(** More call depth changes nothing once a call has returned or
    thrown. *)
Lemma render_more_fuel fuel p d result :
  render fuel p d = Some result → render (S fuel) p d = Some result.
Proof.
  revert p d result. induction fuel as [|fuel IH]; intros p d result H; [done|].
  rewrite render_S in H. rewrite render_S.
  apply (Array_map_mono (callback fuel d)); [|done].
  intros c r _. cbv beta. destruct (date c) as [text|err]; cbn [and_then]; [|done].
  destruct (render fuel (Some (reply_id c)) (S d)) as [nested|] eqn:Hn; [|done].
  by rewrite (IH _ _ _ Hn).
Qed.

Lemma render_fuel_le fuel fuel' p d result :
  (fuel ≤ fuel')%nat → render fuel p d = Some result →
  render fuel' p d = Some result.
Proof. induction 1; [done|]. intros Hr. by apply render_more_fuel, IHle. Qed.

(** *** The sequence and the parent chains *)

Lemma nested_under_elem p d0 r d : under p d0 r d → r ∈ replies.
Proof. by destruct 1. Qed.

Lemma nested_under_ge p d0 r d : under p d0 r d → (d0 ≤ d)%nat.
Proof. induction 1; lia. Qed.

Lemma nested_under_lift c p d0 r d :
  c ∈ replies → reply_parent_id c = p →
  under (Some (reply_id c)) (S d0) r d → under p d0 r d.
Proof.
  intros Hc Hp. induction 1 as [r Hr Hrp|r q d Hr _ IH Hrq].
  - apply (nested_deeper _ _ _ r c); [done| |done]. by constructor.
  - by apply (nested_deeper _ _ _ r q).
Qed.

(** Every pair of the sequence hangs under the parent of the call. *)
Lemma sequence_sound fuel p d out r k :
  render fuel p d = Some (Normal out) → (r, k) ∈ sequence out → under p d r k.
Proof.
  revert p d out. induction fuel as [|fuel IH]; intros p d out H Hin; [done|].
  apply elem_of_sequence in Hin as (e & He & Hin).
  destruct (render_element _ _ _ _ _ H He) as (c & nested & Hc & Hp & Hn & ->).
  simpl in Hin. apply elem_of_cons in Hin as [[= -> ->]|Hin].
  - by constructor.
  - apply (nested_under_lift c); [done..|]. by apply (IH _ _ nested).
Qed.

(** Below every pair of the sequence sits the result of the call for
    its reply. *)
Lemma sequence_subtree fuel p d out q k :
  render fuel p d = Some (Normal out) → (q, k) ∈ sequence out →
  ∃ fuel' nested,
    render (S fuel') (Some (reply_id q)) (S k) = Some (Normal nested)
    ∧ ∀ x, x ∈ sequence nested → x ∈ sequence out.
Proof.
  revert p d out. induction fuel as [|fuel IH]; intros p d out H Hin; [done|].
  apply elem_of_sequence in Hin as (e & He & Hin).
  destruct (render_element _ _ _ _ _ H He) as (c & nested & Hc & Hp & Hn & ->).
  assert (∀ x, x ∈ sequence nested → x ∈ sequence out) as Hsub.
  { intros x Hx. apply elem_of_sequence. eexists. split; [exact He|].
    simpl. by right. }
  simpl in Hin. apply elem_of_cons in Hin as [[= -> ->]|Hin].
  - exists fuel, nested. split; [|done]. by apply render_more_fuel.
  - destruct (IH _ _ _ Hn Hin) as (fuel' & nested' & Hn' & Hsub').
    exists fuel', nested'. split; [done|]. auto.
Qed.

(** Every reply that hangs under the parent of the call is in the
    sequence, at its depth. *)
Lemma sequence_complete fuel p d out r k :
  render fuel p d = Some (Normal out) → under p d r k → (r, k) ∈ sequence out.
Proof.
  intros H. induction 1 as [r Hr Hrp|r q k Hr _ IH Hrq].
  - destruct fuel as [|fuel]; [done|].
    destruct (render_child _ _ _ _ r H Hr Hrp) as (nested & _ & Hin).
    apply elem_of_sequence. eexists. split; [exact Hin|]. simpl. left.
  - destruct (sequence_subtree _ _ _ _ _ _ H IH) as (fuel' & nested & Hn & Hsub).
    destruct (render_child _ _ _ _ r Hn Hr Hrq) as (nested' & _ & Hin).
    apply Hsub, elem_of_sequence. eexists. split; [exact Hin|]. simpl. left.
Qed.

(** Every reply of the sequence has had its date formatted. *)
Lemma sequence_formatted fuel p d out r k :
  render fuel p d = Some (Normal out) → (r, k) ∈ sequence out →
  ∃ text, date r = Normal text.
Proof.
  revert p d out. induction fuel as [|fuel IH]; intros p d out H Hin; [done|].
  apply elem_of_sequence in Hin as (e & He & Hin).
  destruct (render_element_date _ _ _ _ _ H He) as [text Htext].
  destruct (render_element _ _ _ _ _ H He) as (c & nested & Hc & Hp & Hn & ->).
  simpl in Hin. apply elem_of_cons in Hin as [[= -> ->]|Hin].
  - by exists text.
  - by apply (IH _ _ _ Hn).
Qed.

(** What a call throws, [formatDate] has thrown for a reply that hangs
    under the parent of the call. *)
Lemma render_throws fuel p d err :
  render fuel p d = Some (Throw err) →
  ∃ r k, under p d r k ∧ date r = Throw err.
Proof.
  revert p d. induction fuel as [|fuel IH]; intros p d H; [done|].
  rewrite render_S in H.
  apply Array_map_Throw in H as (c & [Hc Hcp]%elem_of_children_of & H).
  cbv beta in H. destruct (date c) as [text|err'] eqn:Hdate; simpl in H.
  - destruct (render fuel (Some (reply_id c)) (S d)) as [[nested|err']|] eqn:Hn;
      simpl in H; [done| |done].
    injection H as ->.
    destruct (IH _ _ Hn) as (r & k & Hr & Hthrown).
    exists r, k. split; [|done]. by apply (nested_under_lift c).
  - injection H as ->. exists c, d. split; [by constructor|done].
Qed.

(** *** Collections with pairwise distinct ids *)

Hypothesis distinct_ids : NoDup (reply_id <$> replies).

Lemma reply_id_inj r1 r2 :
  r1 ∈ replies → r2 ∈ replies → reply_id r1 = reply_id r2 → r1 = r2.
Proof.
  clear -distinct_ids. induction replies as [|a l IH]; intros H1 H2 Heq.
  - by apply elem_of_nil in H1.
  - apply NoDup_cons in distinct_ids as [Ha Hl].
    apply elem_of_cons in H1 as [->|H1], H2 as [->|H2]; [done|..|by apply IH].
    + destruct Ha. rewrite Heq. by apply list_elem_of_fmap_2.
    + destruct Ha. rewrite <- Heq. by apply list_elem_of_fmap_2.
Qed.

Lemma replies_NoDup : NoDup replies.
Proof. by apply (NoDup_fmap_1 reply_id). Qed.

Lemma children_NoDup p : NoDup (children p).
Proof.
  rewrite children_of_Permutation. apply NoDup_filter, replies_NoDup.
Qed.

(** A reply is attached at one depth only. *)
Lemma attached_depth_unique r d1 d2 :
  attached replies r d1 → attached replies r d2 → d1 = d2.
Proof.
  unfold attached. intros H1. revert d2.
  induction H1 as [r Hr Hrp|r q d Hr Hq IH Hrq]; intros d2 H2.
  - destruct H2 as [|r q' d' _ _ Hrq']; [done|congruence].
  - destruct H2 as [r _ Hrp'|r q' d' _ Hq' Hrq']; [congruence|].
    f_equal. apply IH.
    assert (q = q') as -> ; [|done].
    apply reply_id_inj; [by eapply nested_under_elem..|congruence].
Qed.

Lemma attached_below c d r k :
  attached replies c d → under (Some (reply_id c)) (S d) r k →
  attached replies r k.
Proof.
  intros Hc. induction 1 as [r Hr Hrp|r q k Hr _ IH Hrq].
  - by apply (nested_deeper _ _ _ r c).
  - by apply (nested_deeper _ _ _ r q).
Qed.

(** The replies on the way up from an attached reply are pairwise
    distinct, so a depth stays below the size of the collection. *)
Lemma attached_chain r d :
  attached replies r d →
  ∃ chain, length chain = S d ∧ NoDup chain
           ∧ ∀ x, x ∈ chain → x ∈ replies ∧ ∃ k, (k ≤ d)%nat ∧ attached replies x k.
Proof.
  unfold attached.
  induction 1 as [r Hr Hrp|r q d Hr Hq (chain & Hlen & Hnd & Hchain) Hrq].
  - exists [r]. split; [done|]. split; [apply NoDup_singleton|].
    intros x ->%list_elem_of_singleton. split; [done|].
    exists 0%nat. split; [lia|]. by constructor.
  - exists (r :: chain). split; [simpl; lia|]. split.
    + apply NoDup_cons. split; [|done]. intros Hin.
      destruct (Hchain r Hin) as (_ & k & Hk & Hrk).
      assert (S d = k); [|lia].
      apply (attached_depth_unique r); [|done].
      by apply (nested_deeper _ _ _ r q).
    + intros x [->|Hx]%elem_of_cons.
      * split; [done|]. exists (S d). split; [lia|].
        by apply (nested_deeper _ _ _ r q).
      * destruct (Hchain x Hx) as (? & k & ? & ?). split; [done|].
        exists k. split; [lia|done].
Qed.

Lemma attached_depth_lt r d : attached replies r d → (d < length replies)%nat.
Proof.
  intros (chain & Hlen & Hnd & Hchain)%attached_chain.
  assert (length chain ≤ length replies)%nat; [|lia].
  apply submseteq_length, NoDup_submseteq; [done|].
  intros x Hx. by apply Hchain.
Qed.

(** Two replies with a common descendant at the same level are one. *)
Lemma ancestor_unique c1 c2 d0 x k :
  c1 ∈ replies → c2 ∈ replies →
  under (Some (reply_id c1)) d0 x k → under (Some (reply_id c2)) d0 x k →
  c1 = c2.
Proof.
  intros Hc1 Hc2 H1. induction H1 as [x Hx Hxp|x q k Hx Hq IH Hxq]; intros H2.
  - inversion H2 as [? _ Hxp'|? q' k' _ Hq' Hxq']; subst.
    + apply reply_id_inj; [done..|congruence].
    + apply nested_under_ge in Hq'. lia.
  - inversion H2 as [? _ Hxp'|? q' k' _ Hq' Hxq']; subst.
    + apply nested_under_ge in Hq. lia.
    + apply IH. assert (q = q') as ->; [|done].
      apply reply_id_inj; [by eapply nested_under_elem..|congruence].
Qed.

(** *** Every reply at most once *)

Lemma flatten_div_fst c d nested :
  (flatten (div c d nested)).*1 = c :: (sequence nested).*1.
Proof. reflexivity. Qed.

Lemma sequence_fst out :
  (sequence out).*1 = flat_map (λ e, (flatten e).*1) out.
Proof.
  unfold sequence. induction out as [|e out IH]; simpl; [done|].
  by rewrite fmap_app, IH.
Qed.

Lemma render_replies fuel p d out :
  render (S fuel) p d = Some (Normal out) → element_reply <$> out = children p.
Proof.
  intros H%render_elements.
  induction H as [|c e l k (n & _ & ->) _ IH]; [done|].
  by rewrite fmap_cons, IH.
Qed.

Lemma sequence_NoDup fuel p d out :
  (∀ c, c ∈ replies → reply_parent_id c = p → attached replies c d) →
  render fuel p d = Some (Normal out) → NoDup (sequence out).*1.
Proof.
  revert p d out. induction fuel as [|fuel IH]; intros p d out Hp H; [done|].
  rewrite sequence_fst. apply (NoDup_flat_map_by element_reply).
  - rewrite (render_replies _ _ _ _ H). apply children_NoDup.
  - intros e He.
    destruct (render_element _ _ _ _ _ H He) as (c & nested & Hc & Hcp & Hn & ->).
    rewrite flatten_div_fst. apply NoDup_cons. split.
    + intros ((c' & k) & -> & Hin)%list_elem_of_fmap. simpl in *.
      pose proof (sequence_sound _ _ _ _ _ _ Hn Hin) as Hu.
      pose proof (nested_under_ge _ _ _ _ Hu).
      assert (k = d); [|lia].
      apply (attached_depth_unique c'); [|by apply Hp].
      apply (attached_below c' d); [by apply Hp|done].
    + apply (IH _ _ _ (λ c' Hc' Hc'p,
               nested_deeper _ _ _ c' c d Hc' (Hp c Hc Hcp) Hc'p) Hn).
  - intros e1 e2 z He1 He2 Hne Hz1 Hz2.
    destruct (render_element _ _ _ _ _ H He1) as (c1 & n1 & Hc1 & Hp1 & Hn1 & ->).
    destruct (render_element _ _ _ _ _ H He2) as (c2 & n2 & Hc2 & Hp2 & Hn2 & ->).
    simpl in Hne. rewrite flatten_div_fst in Hz1, Hz2.
    assert (∀ c n x k, c ∈ replies → reply_parent_id c = p →
              render fuel (Some (reply_id c)) (S d) = Some (Normal n) →
              (x, k) ∈ sequence n →
              under (Some (reply_id c)) (S d) x k ∧ attached replies x k
              ∧ (S d ≤ k)%nat) as Hsub.
    { intros c n x k Hc Hcp Hn Hin.
      pose proof (sequence_sound _ _ _ _ _ _ Hn Hin) as Hu.
      split; [done|]. split; [|by eapply nested_under_ge].
      apply (attached_below c d); [by apply Hp|done]. }
    apply elem_of_cons in Hz1, Hz2.
    destruct Hz1 as [Hz1|((z1 & k1) & Hz1 & Hin1)%list_elem_of_fmap],
             Hz2 as [Hz2|((z2 & k2) & Hz2 & Hin2)%list_elem_of_fmap];
      simpl in Hz1, Hz2.
    + congruence.
    + destruct (Hsub _ _ _ _ Hc2 Hp2 Hn2 Hin2) as (_ & Hatt & Hle).
      rewrite <- Hz2, Hz1 in Hatt.
      pose proof (attached_depth_unique _ _ _ Hatt (Hp _ Hc1 Hp1)). lia.
    + destruct (Hsub _ _ _ _ Hc1 Hp1 Hn1 Hin1) as (_ & Hatt & Hle).
      rewrite <- Hz1, Hz2 in Hatt.
      pose proof (attached_depth_unique _ _ _ Hatt (Hp _ Hc2 Hp2)). lia.
    + destruct (Hsub _ _ _ _ Hc1 Hp1 Hn1 Hin1) as (Hu1 & Hatt1 & _).
      destruct (Hsub _ _ _ _ Hc2 Hp2 Hn2 Hin2) as (Hu2 & Hatt2 & _).
      rewrite <- Hz1 in Hu1, Hatt1. rewrite <- Hz2 in Hu2, Hatt2.
      pose proof (attached_depth_unique _ _ _ Hatt1 Hatt2) as Hk.
      rewrite Hk in Hu1.
      apply Hne. by apply (ancestor_unique c1 c2 (S d) z k2).
Qed.

(** *** The expansion ends *)

Lemma render_returns fuel p d :
  (∀ c, c ∈ replies → reply_parent_id c = p → attached replies c d) →
  (length replies < S fuel + d)%nat →
  is_Some (render (S fuel) p d).
Proof.
  revert p d. induction fuel as [|fuel IH]; intros p d Hp Hfuel;
    rewrite render_S; apply Array_map_is_Some, Forall_forall;
    intros c [Hc Hcp]%elem_of_children_of;
    pose proof (attached_depth_lt _ _ (Hp c Hc Hcp)) as Hlt.
  - lia.
  - cbv beta. destruct (date c) as [text|err]; cbn [and_then]; [|by eexists].
    destruct (IH (Some (reply_id c)) (S d)) as [[nested|err] Hn].
    + intros c' Hc' Hc'p.
      apply (nested_deeper _ _ _ c' c d); [done|by apply Hp|done].
    + lia.
    + rewrite Hn. by eexists.
    + rewrite Hn. by eexists.
Qed.

Lemma attached_top c : c ∈ replies → reply_parent_id c = None → attached replies c 0.
Proof. by constructor. Qed.

Lemma reply_list_returns :
  is_Some (reply_list Date_value DateTimeFormat_format canInteract canDeleteReply
             (S (length replies)) replies).
Proof. apply render_returns; [apply attached_top|lia]. Qed.

(** With every date of an attached reply formatted, the list is
    returned. *)
Lemma reply_list_returns_normally :
  (∀ r d, attached replies r d → ∃ text, date r = Normal text) →
  ∃ out, reply_list Date_value DateTimeFormat_format canInteract canDeleteReply
           (S (length replies)) replies = Some (Normal out).
Proof.
  intros Hdates. destruct reply_list_returns as [[out|err] Hout]; [by exists out|].
  apply render_throws in Hout as (r & k & Hr & Hthrown).
  destruct (Hdates r k Hr) as [text Htext]. congruence.
Qed.

(** With a date of an attached reply that [formatDate] throws on, the
    render throws. *)
Lemma reply_list_throws r d err :
  attached replies r d → date r = Throw err →
  ∃ err', reply_list Date_value DateTimeFormat_format canInteract canDeleteReply
            (S (length replies)) replies = Some (Throw err').
Proof.
  intros Hr Hthrown.
  destruct reply_list_returns as [[out|err'] Hout]; [|by exists err'].
  pose proof (sequence_complete _ _ _ _ _ _ Hout Hr) as Hin.
  destruct (sequence_formatted _ _ _ _ _ _ Hout Hin) as [text Htext]. congruence.
Qed.

End Expansion.

(** ** Claims on the expansion *)

(** C5, as the code has it: for every reply collection whose reply ids
    are pairwise distinct the expansion from the root key ends, and ends
    the same way (with the same elements returned, or with the same error
    of [formatDate] thrown) whatever call depth is available beyond the
    size of the collection.  Cyclic parent references are allowed: the
    replies on a cycle are under keys the expansion never reaches. *)
Theorem reply_list_terminates (Date_value : string → Z)
    (DateTimeFormat_format : string → completion string) (canInteract : bool)
    (canDeleteReply : Z → bool) (replies : list Reply) :
  NoDup (reply_id <$> replies) →
  ∃ out, ∀ fuel, (length replies < fuel)%nat →
    reply_list Date_value DateTimeFormat_format canInteract canDeleteReply
      fuel replies = Some out.
Proof.
  intros Hids.
  destruct (reply_list_returns Date_value DateTimeFormat_format canInteract
              canDeleteReply replies Hids) as [out Hout].
  exists out. intros fuel Hfuel.
  apply (render_fuel_le _ _ _ _ _ (S (length replies))); [lia|done].
Qed.

Lemma reply_list_terminates_witness :
  let replies := [Sample.reply 1 (Some 1) "2024-05-01T10:00:00Z";
                  Sample.reply 2 (Some 3) "2024-05-01T10:01:00Z";
                  Sample.reply 3 (Some 2) "2024-05-01T10:02:00Z";
                  Sample.reply 4 None "2024-05-01T10:03:00Z"] in
  ∃ out, ∀ fuel, (length replies < fuel)%nat →
    reply_list Sample.Date_value Sample.DateTimeFormat_format true (λ _, false)
      fuel replies = Some out.
Proof.
  intros replies. apply reply_list_terminates.
  apply (bool_decide_unpack _). vm_compute. exact I.
Defined.

(** C5 as stated fails: two replies carrying the same id, the second
    nested under that id, make [renderReplies] call itself without end. *)
Lemma reply_list_duplicate_id_diverges :
  ¬ ∃ fuel out,
      reply_list Sample.Date_value Sample.DateTimeFormat_format true (λ _, false)
        fuel
        [Sample.reply 1 None "2024-05-01T10:00:00Z";
         Sample.reply 1 (Some 1) "2024-05-01T10:01:00Z"] = Some out.
Proof.
  set (replies := [_; _]).
  assert (∀ fuel d,
    renderReplies Sample.DateTimeFormat_format true (λ _, false) fuel
      (repliesByParent Sample.Date_value replies) (Some 1) d = None) as Hloop.
  { induction fuel as [|fuel IH]; intros d; [done|].
    rewrite render_S.
    replace (children_of Sample.Date_value replies (Some 1))
      with [Sample.reply 1 (Some 1) "2024-05-01T10:01:00Z"] by (by vm_compute).
    cbn [Array_map].
    replace (formatDate Sample.DateTimeFormat_format
               (reply_created_at (Sample.reply 1 (Some 1) "2024-05-01T10:01:00Z")))
      with (Normal (A:=string) "2024-05-01T10:01:00Z") by (by vm_compute).
    cbn [and_then]. change (reply_id _) with 1. by rewrite IH. }
  intros ([|fuel] & out & Hout); [done|].
  unfold reply_list in Hout. rewrite render_S in Hout.
  replace (children_of Sample.Date_value replies None)
    with [Sample.reply 1 None "2024-05-01T10:00:00Z"] in Hout by (by vm_compute).
  cbn [Array_map] in Hout.
  replace (formatDate Sample.DateTimeFormat_format
             (reply_created_at (Sample.reply 1 None "2024-05-01T10:00:00Z")))
    with (Normal (A:=string) "2024-05-01T10:00:00Z") in Hout by (by vm_compute).
  cbn [and_then] in Hout. change (reply_id _) with 1 in Hout.
  by rewrite Hloop in Hout.
Qed.

Lemma dangling_not_attached (replies : list Reply) (r : Reply) (d : nat) :
  dangling replies r → ¬ attached replies r d.
Proof.
  intros (p & Hp & Hdangling) Hr.
  inversion Hr as [? _ Hnone|? q ? _ Hq Hrq]; subst; [congruence|].
  apply nested_under_elem in Hq.
  apply (Hdangling q Hq). congruence.
Qed.

Lemma dangling_not_in_sequence (Date_value : string → Z)
    (DateTimeFormat_format : string → completion string) (canInteract : bool)
    (canDeleteReply : Z → bool) (replies : list Reply) (r : Reply)
    (fuel : nat) (out : list Element) (d : nat) :
  dangling replies r →
  reply_list Date_value DateTimeFormat_format canInteract canDeleteReply
    fuel replies = Some (Normal out) →
  (r, d) ∉ sequence out.
Proof.
  intros Hdangling Hout Hin.
  apply (sequence_sound _ _ _ _ _ _ _ _ _ _ _ Hout) in Hin.
  by apply (dangling_not_attached replies r d).
Qed.

(** C2, as the code has it: a reply whose parent id is the id of no
    reply of the collection stays in the group of that parent id; the
    expansion from the root key never reads this group, so the reply is
    at no depth in a rendering sequence that is returned.  The dangling
    reference makes nothing throw: the expansion of a collection with
    pairwise distinct ids returns whenever [formatDate] returns for the
    [created_at] of every reply whose chain of parent ids ends at a reply
    without parent, and the dangling reply is not one of these. *)
Theorem dangling_reply_not_rendered (Date_value : string → Z)
    (DateTimeFormat_format : string → completion string)
    (canInteract : bool) (canDeleteReply : Z → bool)
    (replies : list Reply) (r : Reply) :
  r ∈ replies → dangling replies r →
  r ∈ children_of Date_value replies (reply_parent_id r)
  ∧ (∀ fuel out,
       reply_list Date_value DateTimeFormat_format canInteract canDeleteReply
         fuel replies = Some (Normal out) →
       ∀ d, (r, d) ∉ sequence out)
  ∧ (∀ d, ¬ attached replies r d)
  ∧ (NoDup (reply_id <$> replies) →
     (∀ q d, attached replies q d →
        ∃ text, formatDate DateTimeFormat_format (reply_created_at q)
                = Normal text) →
     ∃ out, reply_list Date_value DateTimeFormat_format canInteract
              canDeleteReply (S (length replies)) replies = Some (Normal out)).
Proof.
  intros Hr Hd. split; [|split; [|split]].
  - by apply elem_of_children_of.
  - intros fuel out Hout d. by eapply dangling_not_in_sequence.
  - intros d. by apply dangling_not_attached.
  - intros Hids Hdates. by apply reply_list_returns_normally.
Qed.

Lemma dangling_reply_not_rendered_witness :
  let r := mkReply 2 1 (Some 99) "text" None true "not-a-date" in
  let replies := [Sample.reply 1 None "2024-05-01T10:00:00Z"; r] in
  ∃ out,
    (reply_list Sample.Date_value Sample.DateTimeFormat_format true (λ _, false)
       (S (length replies)) replies = Some (Normal out))
    ∧ ((r, 0%nat) ∉ sequence out)
    ∧ ((r, 1%nat) ∉ sequence out).
Proof.
  intros r replies.
  assert (r ∈ replies) as Hr by (right; left).
  assert (dangling replies r) as Hd.
  { exists 99. split; [done|].
    intros q [->|[->|[]%elem_of_nil]%elem_of_cons]%elem_of_cons; by vm_compute. }
  destruct (dangling_reply_not_rendered Sample.Date_value
              Sample.DateTimeFormat_format true (λ _, false) replies r Hr Hd)
    as (_ & Hnot & Hloose & Hreturns).
  destruct Hreturns as [out Hout].
  { apply (bool_decide_unpack _). vm_compute. exact I. }
  { intros q d Hq. pose proof (nested_under_elem _ _ _ _ _ Hq) as Hin.
    apply elem_of_cons in Hin as [->|[->|[]%elem_of_nil]%elem_of_cons].
    - by eexists.
    - by destruct (Hloose d). }
  exists out. split; [exact Hout|]. split; by apply (Hnot _ _ Hout).
Defined.

(** C2 as stated fails: the only reply of this collection has a parent
    id that matches no reply; the expansion returns the empty list, the
    reply is not at depth 0 in it. *)
Lemma dangling_reply_not_promoted :
  let r := Sample.reply 1 (Some 99) "2024-05-01T10:00:00Z" in
  dangling [r] r
  ∧ reply_list Sample.Date_value Sample.DateTimeFormat_format true (λ _, false)
      2 [r] = Some (Normal [])
  ∧ ¬ ∃ fuel out,
        reply_list Sample.Date_value Sample.DateTimeFormat_format true
          (λ _, false) fuel [r] = Some (Normal out)
        ∧ (r, 0%nat) ∈ sequence out.
Proof.
  intros r.
  assert (dangling [r] r) as Hd.
  { exists 99. split; [done|]. by intros q ->%list_elem_of_singleton. }
  split; [done|]. split; [by vm_compute|].
  intros (fuel & out & Hout & Hin).
  by apply (dangling_not_in_sequence _ _ _ _ _ _ _ _ _ Hd Hout) in Hin.
Qed.

(** C3, as the code has it, for a reply collection with pairwise
    distinct ids.  When [formatDate] returns for the [created_at] of
    every reply whose chain of parent ids ends at a reply without parent,
    the expansion from the root key at depth 0 returns a sequence that
    holds no reply twice and holds a reply at depth d exactly when the
    chain of its parent ids ends, d steps up, at a reply without parent.
    A reply without parent is at depth 0, any other reply of the sequence
    has its parent in the sequence one level higher, and when every reply
    of the collection has such a chain the sequence is a rearrangement of
    the collection.  When [formatDate] throws for one of these replies,
    the expansion throws and there is no sequence. *)
Theorem sequence_of_reply_list (Date_value : string → Z)
    (DateTimeFormat_format : string → completion string) (canInteract : bool)
    (canDeleteReply : Z → bool) (replies : list Reply) :
  NoDup (reply_id <$> replies) →
  ((∀ r d, attached replies r d →
      ∃ text, formatDate DateTimeFormat_format (reply_created_at r)
              = Normal text) →
   ∃ out,
     reply_list Date_value DateTimeFormat_format canInteract canDeleteReply
       (S (length replies)) replies = Some (Normal out)
     ∧ NoDup (sequence out).*1
     ∧ (∀ r d, (r, d) ∈ sequence out ↔ attached replies r d)
     ∧ (∀ r d, (r, d) ∈ sequence out →
          match reply_parent_id r with
          | None => d = 0%nat
          | Some parent =>
              ∃ p d', reply_id p = parent ∧ d = S d' ∧ (p, d') ∈ sequence out
          end)
     ∧ ((∀ r, r ∈ replies → ∃ d, attached replies r d) →
        (sequence out).*1 ≡ₚ replies))
  ∧ (∀ r d err,
       attached replies r d →
       formatDate DateTimeFormat_format (reply_created_at r) = Throw err →
       ∃ err',
         reply_list Date_value DateTimeFormat_format canInteract canDeleteReply
           (S (length replies)) replies = Some (Throw err')).
Proof.
  intros Hids. split; [|intros r d err; by apply reply_list_throws].
  intros Hdates.
  destruct (reply_list_returns_normally Date_value DateTimeFormat_format
              canInteract canDeleteReply replies Hids Hdates) as [out Hout].
  assert (∀ r d, (r, d) ∈ sequence out ↔ attached replies r d) as Hiff.
  { intros r d. split.
    - by apply (sequence_sound _ _ _ _ _ _ _ _ _ _ _ Hout).
    - by apply (sequence_complete _ _ _ _ _ _ _ _ _ _ _ Hout). }
  assert (NoDup (sequence out).*1) as Hnodup.
  { apply (sequence_NoDup _ _ _ _ _ Hids _ _ _ _ (attached_top replies) Hout). }
  exists out. split; [done|]. split; [done|]. split; [done|]. split.
  - intros r d Hin%Hiff.
    inversion Hin as [? _ Hnone|? q d' _ Hq Hrq]; subst.
    + by rewrite Hnone.
    + rewrite Hrq. exists q, d'. split; [done|]. split; [done|]. by apply Hiff.
  - intros Hall. apply NoDup_Permutation; [done|by apply replies_NoDup|].
    intros r. split.
    + intros ((r' & d) & -> & Hin)%list_elem_of_fmap.
      apply Hiff in Hin. by apply nested_under_elem in Hin.
    + intros (d & Hd%Hiff)%Hall.
      apply list_elem_of_fmap. by exists (r, d).
Qed.

Lemma sequence_of_reply_list_witness :
  let R1 := Sample.reply 1 None "2024-05-01T10:00:00Z" in
  let R2 := Sample.reply 2 (Some 1) "2024-05-01T10:05:00Z" in
  let R3 := Sample.reply 3 None "2024-05-01T10:02:00Z" in
  (∃ out,
     reply_list Sample.Date_value Sample.DateTimeFormat_format true (λ _, false)
       4 [R1; R2; R3] = Some (Normal out)
     ∧ sequence out = [(R1, 0%nat); (R2, 1%nat); (R3, 0%nat)]
     ∧ NoDup (sequence out).*1)
  ∧ (∃ err,
       reply_list Sample.Date_value Sample.DateTimeFormat_format true
         (λ _, false) 2 [Sample.reply 1 None "not-a-date"] = Some (Throw err)).
Proof.
  intros R1 R2 R3. split.
  - assert (NoDup (reply_id <$> [R1; R2; R3])) as Hids.
    { apply (bool_decide_unpack _). vm_compute. exact I. }
    destruct (sequence_of_reply_list Sample.Date_value
                Sample.DateTimeFormat_format true (λ _, false)
                [R1; R2; R3] Hids) as [Hreturns _].
    destruct Hreturns as (out & Hout & Hnodup & _).
    { intros r d Hr. pose proof (nested_under_elem _ _ _ _ _ Hr) as Hin.
      repeat (apply elem_of_cons in Hin as [->|Hin]; [by eexists|]).
      by apply elem_of_nil in Hin. }
    exists out. split; [exact Hout|]. split; [|exact Hnodup].
    vm_compute in Hout. injection Hout as <-. reflexivity.
  - set (R := Sample.reply 1 None "not-a-date").
    destruct (sequence_of_reply_list Sample.Date_value
                Sample.DateTimeFormat_format true (λ _, false) [R]
                (NoDup_singleton _)) as [_ Hthrows].
    apply (Hthrows R 0%nat (Error "Invalid time value")).
    + constructor; [left|done].
    + by vm_compute.
Defined.

(** C3 as stated fails: of these two replies the second has a parent id
    that matches no reply, and the sequence holds the first one only. *)
Lemma reply_list_misses_a_reply :
  let R1 := Sample.reply 1 None "2024-05-01T10:00:00Z" in
  let R2 := Sample.reply 2 (Some 7) "2024-05-01T10:05:00Z" in
  (∃ out, reply_list Sample.Date_value Sample.DateTimeFormat_format true
            (λ _, false) 3 [R1; R2] = Some (Normal out)
          ∧ sequence out = [(R1, 0%nat)])
  ∧ ¬ ∃ fuel out,
        reply_list Sample.Date_value Sample.DateTimeFormat_format true
          (λ _, false) fuel [R1; R2] = Some (Normal out)
        ∧ ∀ r, r ∈ [R1; R2] → ∃ d, (r, d) ∈ sequence out.
Proof.
  intros R1 R2. split.
  - eexists. split; by vm_compute.
  - intros (fuel & out & Hout & Hall).
    destruct (Hall R2) as [d Hd]; [right; left|].
    apply (sequence_sound _ _ _ _ _ _ _ _ _ _ _ Hout) in Hd.
    inversion Hd as [? _ Hnone|? q ? _ Hq Hrq]; subst; [done|].
    apply nested_under_elem in Hq.
    apply elem_of_cons in Hq as [->|[->|[]%elem_of_nil]%elem_of_cons]; done.
Qed.

(** ** Delete capability *)

Lemma truthy_opt_true (v : option json) :
  truthy_opt v = true ↔ ∃ token, v = Some token ∧ truthy token = true.
Proof.
  destruct v as [token|]; simpl.
  - split; [by exists token|]. by intros (? & [= <-] & ?).
  - split; [done|]. by intros (? & ? & ?).
Qed.

Lemma isAuthed_true (st : AppState) :
  isAuthed st = true
  ↔ (∃ bearer, authToken st = Some bearer ∧ bearer ≠ "")
    ∧ truthy (authUser st) = true.
Proof.
  unfold isAuthed. rewrite andb_true_iff.
  destruct (authToken st) as [[|c bearer]|]; simpl; split;
    try (by intros [? ?]); try (by intros [(? & ? & ?) ?]);
    try (by intros [(? & [= <-] & ?) ?]).
  intros [_ ?]. split; [|done]. by eexists.
Qed.

(** C1, as the code has it: the delete capability of a thread id (and
    likewise of a reply id) is true if and only if the matching map holds
    a truthy owner token for the id, a non-empty string, and a session is
    active, that is a non-empty bearer token and a user are present.  It
    is false for an id without recorded token and false without a session
    whatever the maps hold.  The variant of the client without accounts
    has no session and tests the token alone; the variant with routes
    tests the token alone on a page that is shown only with a session. *)
Theorem canDelete_iff (st : AppState) (id : Z) :
  (canDeleteThread st id = true
   ↔ (∃ token, threadTokens st !! token_key id = Some token
               ∧ truthy token = true)
     ∧ isAuthed st = true)
  ∧ (canDeleteReply st id = true
     ↔ (∃ token, replyTokens st !! token_key id = Some token
                 ∧ truthy token = true)
       ∧ isAuthed st = true)
  ∧ (threadTokens st !! token_key id = None → canDeleteThread st id = false)
  ∧ (replyTokens st !! token_key id = None → canDeleteReply st id = false)
  ∧ (isAuthed st = false →
     canDeleteThread st id = false ∧ canDeleteReply st id = false)
  ∧ (Anonymous.canDeleteThread (threadTokens st) id = true
     ↔ ∃ token, threadTokens st !! token_key id = Some token
                ∧ truthy token = true)
  ∧ (Anonymous.canDeleteReply (replyTokens st) id = true
     ↔ ∃ token, replyTokens st !! token_key id = Some token
                ∧ truthy token = true)
  ∧ (Routed.canDeleteThread st id = Routed.Shown true
     ↔ canDeleteThread st id = true)
  ∧ (Routed.canDeleteReply st id = Routed.Shown true
     ↔ canDeleteReply st id = true).
Proof.
  unfold canDeleteThread, canDeleteReply, Anonymous.canDeleteThread,
    Anonymous.canDeleteReply, Routed.canDeleteThread, Routed.canDeleteReply,
    Routed.RequireAuth.
  split; [|split; [|split; [|split; [|split; [|split; [|split; [|split]]]]]]].
  - by rewrite andb_true_iff, truthy_opt_true.
  - by rewrite andb_true_iff, truthy_opt_true.
  - by intros ->.
  - by intros ->.
  - intros ->. by rewrite !andb_false_r.
  - apply truthy_opt_true.
  - apply truthy_opt_true.
  - destruct (isAuthed st); simpl; rewrite ?andb_true_r, ?andb_false_r;
      split; congruence.
  - destruct (isAuthed st); simpl; rewrite ?andb_true_r, ?andb_false_r;
      split; congruence.
Qed.

Lemma canDelete_iff_witness :
  canDeleteThread Sample.signed_in 1 = true
  ∧ canDeleteThread Sample.signed_in 2 = false
  ∧ canDeleteThread Sample.signed_out 1 = false
  ∧ canDeleteReply Sample.signed_out 7 = false.
Proof.
  destruct (canDelete_iff Sample.signed_in 1) as (Hthread & _).
  destruct (canDelete_iff Sample.signed_in 2) as (_ & _ & Hnone & _).
  destruct (canDelete_iff Sample.signed_out 1) as (_ & _ & _ & _ & Hout1 & _).
  destruct (canDelete_iff Sample.signed_out 7) as (_ & _ & _ & _ & Hout7 & _).
  split; [|split; [|split]].
  - apply Hthread. split; [|reflexivity].
    exists (JString "abc123"). split; [by vm_compute|reflexivity].
  - apply Hnone. by vm_compute.
  - apply Hout1. reflexivity.
  - apply Hout7. reflexivity.
Defined.

(** C1 as stated fails where the recorded token is the empty string: a
    token is recorded for thread 1 and a session is active, the
    capability is false.  It fails as well in the variant without
    accounts, whose capability for a recorded token is true with no
    session anywhere. *)
Lemma canDelete_empty_token :
  let st := mkAppState [] false None "" "" "" true ∅ ∅ ∅ ∅
              (Sample.tokens 1 "") ∅ (Some "bearer") Sample.user in
  ¬ (canDeleteThread st 1 = true
     ↔ is_Some (threadTokens st !! token_key 1) ∧ isAuthed st = true)
  ∧ ¬ (Anonymous.canDeleteThread (threadTokens Sample.signed_out) 1 = true
       ↔ is_Some (threadTokens Sample.signed_out !! token_key 1)
         ∧ isAuthed Sample.signed_out = true).
Proof.
  intros st. split.
  - intros [_ Hclaim].
    assert (canDeleteThread st 1 = true) as Hcan; [|by vm_compute in Hcan].
    apply Hclaim. split; [|reflexivity].
    exists (JString ""). by vm_compute.
  - intros [Hclaim _].
    assert (isAuthed Sample.signed_out = true) as Hauth; [|by vm_compute in Hauth].
    apply Hclaim. by vm_compute.
Qed.

(** ** Handlers *)

(** Unfolds a handler down to the state it leaves. *)
Ltac run_handler :=
  cbv [after requests run handleCreateThread handleCreateReply
       handleDeleteThread handleDeleteReply loadThreads
       mbind mret M_bind M_ret set fetch throw settle try_catch];
  cbn [fst snd app sent negb].

(** A create handler that gets no good answer leaves every cell but
    [error] as it was. *)
Lemma handleCreateThread_failed st ownerToken creation listing :
  fetch_failed creation →
  ∃ e, after (handleCreateThread st ownerToken creation listing) st
       = setError (λ _, e) st.
Proof.
  intros Hfailed. run_handler.
  destruct (JS.truthy_opt_string (authToken st)); cbn [negb]; [|by eexists].
  destruct creation as [reason|ok payload]; cbn in *; [by eexists|].
  subst ok. cbn. by eexists.
Qed.

Lemma handleCreateReply_failed st threadId ownerToken creation listing :
  fetch_failed creation →
  ∃ e, after (handleCreateReply st threadId ownerToken creation listing) st
       = setError (λ _, e) st.
Proof.
  intros Hfailed. run_handler.
  destruct (JS.truthy_opt_string (authToken st)); cbn [negb]; [|by eexists].
  destruct creation as [reason|ok payload]; cbn in *; [by eexists|].
  subst ok. cbn. by eexists.
Qed.

Lemma handleDeleteThread_failed st threadId deletion listing :
  fetch_failed deletion →
  ∃ e, after (handleDeleteThread st threadId deletion listing) st
       = setError (λ _, e) st.
Proof.
  intros Hfailed. run_handler.
  destruct (truthy_opt (threadTokens st !! token_key threadId)); cbn [negb].
  - destruct deletion as [reason|ok payload]; cbn in *; [by eexists|].
    subst ok. cbn. by eexists.
  - exists (error st). by destruct st.
Qed.

Lemma handleDeleteReply_failed st threadId replyId deletion listing :
  fetch_failed deletion →
  ∃ e, after (handleDeleteReply st threadId replyId deletion listing) st
       = setError (λ _, e) st.
Proof.
  intros Hfailed. run_handler.
  destruct (truthy_opt (replyTokens st !! token_key replyId)); cbn [negb].
  - destruct deletion as [reason|ok payload]; cbn in *; [by eexists|].
    subst ok. cbn. by eexists.
  - exists (error st). by destruct st.
Qed.

Lemma setError_same_ownership e st :
  same_ownership_and_session st (setError (λ _, e) st).
Proof. by repeat split. Qed.

(** C6: an operation whose request fails, by a transport error or a
    non-success status, leaves both token maps and the session as they
    were: a failed create registers no token, a failed delete removes
    none, and the delete capability of every id is what it was. *)
Theorem failed_operation_keeps_ownership (st : AppState)
    (listing : fetched (list Thread)) :
  (∀ ownerToken creation, fetch_failed creation →
     same_ownership_and_session st
       (after (handleCreateThread st ownerToken creation listing) st))
  ∧ (∀ threadId ownerToken creation, fetch_failed creation →
       same_ownership_and_session st
         (after (handleCreateReply st threadId ownerToken creation listing) st))
  ∧ (∀ threadId deletion, fetch_failed deletion →
       let st' := after (handleDeleteThread st threadId deletion listing) st in
       same_ownership_and_session st st'
       ∧ ∀ id, canDeleteThread st' id = canDeleteThread st id)
  ∧ (∀ threadId replyId deletion, fetch_failed deletion →
       let st' := after (handleDeleteReply st threadId replyId deletion listing) st in
       same_ownership_and_session st st'
       ∧ ∀ id, canDeleteReply st' id = canDeleteReply st id).
Proof.
  split; [|split; [|split]].
  - intros ownerToken creation Hfailed.
    destruct (handleCreateThread_failed st ownerToken creation listing Hfailed)
      as [e ->]. apply setError_same_ownership.
  - intros threadId ownerToken creation Hfailed.
    destruct (handleCreateReply_failed st threadId ownerToken creation listing
                Hfailed) as [e ->]. apply setError_same_ownership.
  - intros threadId deletion Hfailed st'. subst st'.
    destruct (handleDeleteThread_failed st threadId deletion listing Hfailed)
      as [e ->]. split; [apply setError_same_ownership|done].
  - intros threadId replyId deletion Hfailed st'. subst st'.
    destruct (handleDeleteReply_failed st threadId replyId deletion listing
                Hfailed) as [e ->]. split; [apply setError_same_ownership|done].
Qed.

Lemma failed_operation_keeps_ownership_witness :
  let st' := after (handleDeleteThread Sample.signed_in 1
                      (Responded false (Normal tt)) (Responded true (Normal [])))
               Sample.signed_in in
  threadTokens st' = Sample.tokens 1 "abc123"
  ∧ canDeleteThread st' 1 = true
  ∧ error st' = Some "Failed to delete thread.".
Proof.
  intros st'.
  destruct (failed_operation_keeps_ownership Sample.signed_in
              (Responded true (Normal []))) as (_ & _ & Hdelete & _).
  destruct (Hdelete 1 (Responded false (Normal tt)) eq_refl) as [Hsame Hcan].
  split; [exact (proj1 Hsame)|]. split; [|by vm_compute].
  fold st' in Hcan. rewrite Hcan. by vm_compute.
Defined.

Lemma handleCreateThread_no_bearer st ownerToken creation listing :
  JS.truthy_opt_string (authToken st) = false →
  run (handleCreateThread st ownerToken creation listing) st
  = (Normal tt,
     mkWorld (setError (λ _, Some "Please sign in to create a thread.") st) []).
Proof. intros Hnone. unfold run, handleCreateThread. by rewrite Hnone. Qed.

Lemma handleCreateReply_no_bearer st threadId ownerToken creation listing :
  JS.truthy_opt_string (authToken st) = false →
  run (handleCreateReply st threadId ownerToken creation listing) st
  = (Normal tt, mkWorld (setError (λ _, Some "Please sign in to reply.") st) []).
Proof. intros Hnone. unfold run, handleCreateReply. by rewrite Hnone. Qed.

Lemma handleDeleteThread_no_token st threadId deletion listing :
  truthy_opt (threadTokens st !! token_key threadId) = false →
  run (handleDeleteThread st threadId deletion listing) st
  = (Normal tt, mkWorld st []).
Proof. intros Hnone. unfold run, handleDeleteThread. by rewrite Hnone. Qed.

Lemma handleDeleteReply_no_token st threadId replyId deletion listing :
  truthy_opt (replyTokens st !! token_key replyId) = false →
  run (handleDeleteReply st threadId replyId deletion listing) st
  = (Normal tt, mkWorld st []).
Proof. intros Hnone. unfold run, handleDeleteReply. by rewrite Hnone. Qed.

Lemma handleDeleteThread_sends st threadId token deletion listing :
  threadTokens st !! token_key threadId = Some token → truthy token = true →
  ∃ rest, requests (handleDeleteThread st threadId deletion listing) st
          = DELETE_thread threadId token :: rest.
Proof.
  intros Htoken Htruthy. run_handler. rewrite Htoken. cbn. rewrite Htruthy. cbn.
  destruct deletion as [reason|[] payload]; cbn; [by eexists| |by eexists].
  destruct listing as [reason|[] [data|e]]; cbn; by eexists.
Qed.

Lemma handleDeleteReply_sends st threadId replyId token deletion listing :
  replyTokens st !! token_key replyId = Some token → truthy token = true →
  ∃ rest, requests (handleDeleteReply st threadId replyId deletion listing) st
          = DELETE_reply threadId replyId token :: rest.
Proof.
  intros Htoken Htruthy. run_handler. rewrite Htoken. cbn. rewrite Htruthy. cbn.
  destruct deletion as [reason|[] payload]; cbn; [by eexists| |by eexists].
  destruct listing as [reason|[] [data|e]]; cbn; by eexists.
Qed.

(** C7, as the code has it: without a bearer token (none stored, or an
    empty one) the two create handlers send nothing and leave their
    message as the error shown, every other cell unchanged.  The two
    delete handlers do not look at the session: they return at once,
    sending nothing and changing nothing, exactly when no truthy owner
    token is recorded for the id, and send their DELETE request first
    otherwise.  Without a session the page renders none of the four
    controls: a sign-in hint stands in for each form, nothing for a
    delete button. *)
Theorem operations_without_credentials (st : AppState)
    (listing : fetched (list Thread)) :
  (JS.truthy_opt_string (authToken st) = false →
     (∀ ownerToken creation,
        run (handleCreateThread st ownerToken creation listing) st
        = (Normal tt,
           mkWorld (setError (λ _, Some "Please sign in to create a thread.") st)
             []))
     ∧ (∀ threadId ownerToken creation,
          run (handleCreateReply st threadId ownerToken creation listing) st
          = (Normal tt,
             mkWorld (setError (λ _, Some "Please sign in to reply.") st) [])))
  ∧ (∀ threadId deletion,
       match threadTokens st !! token_key threadId with
       | Some token =>
           if truthy token
           then ∃ rest,
                  requests (handleDeleteThread st threadId deletion listing) st
                  = DELETE_thread threadId token :: rest
           else run (handleDeleteThread st threadId deletion listing) st
                = (Normal tt, mkWorld st [])
       | None => run (handleDeleteThread st threadId deletion listing) st
                 = (Normal tt, mkWorld st [])
       end)
  ∧ (∀ threadId replyId deletion,
       match replyTokens st !! token_key replyId with
       | Some token =>
           if truthy token
           then ∃ rest,
                  requests (handleDeleteReply st threadId replyId deletion listing) st
                  = DELETE_reply threadId replyId token :: rest
           else run (handleDeleteReply st threadId replyId deletion listing) st
                = (Normal tt, mkWorld st [])
       | None => run (handleDeleteReply st threadId replyId deletion listing) st
                 = (Normal tt, mkWorld st [])
       end)
  ∧ (isAuthed st = false →
     ∀ op, control_shown st op = false
           ∧ sign_in_hint st op
             = match op with
               | CreateThread =>
                   Some "Sign in to create a thread and reply to others."
               | CreateReply _ => Some "Sign in to reply to this thread."
               | DeleteThread _ | DeleteReply _ _ => None
               end).
Proof.
  split; [|split; [|split]].
  - intros Hnone. split; intros.
    + by apply handleCreateThread_no_bearer.
    + by apply handleCreateReply_no_bearer.
  - intros threadId deletion.
    destruct (threadTokens st !! token_key threadId) as [token|] eqn:Htoken.
    + destruct (truthy token) eqn:Htruthy.
      * by apply handleDeleteThread_sends.
      * apply handleDeleteThread_no_token. by rewrite Htoken.
    + apply handleDeleteThread_no_token. by rewrite Htoken.
  - intros threadId replyId deletion.
    destruct (replyTokens st !! token_key replyId) as [token|] eqn:Htoken.
    + destruct (truthy token) eqn:Htruthy.
      * by apply handleDeleteReply_sends.
      * apply handleDeleteReply_no_token. by rewrite Htoken.
    + apply handleDeleteReply_no_token. by rewrite Htoken.
  - intros Hout op.
    destruct op; simpl; unfold canDeleteThread, canDeleteReply;
      by rewrite Hout, ?andb_false_r.
Qed.

Lemma operations_without_credentials_witness :
  run (handleCreateThread Sample.signed_out "owner"
         (Responded true (Normal (mkThreadCreateResponse
            (mkThread 5 "title" "text" None true "2024-05-01T10:00:00Z" [])
            "abc123")))
         (Responded true (Normal []))) Sample.signed_out
  = (Normal tt,
     mkWorld (setError (λ _, Some "Please sign in to create a thread.")
                Sample.signed_out) [])
  ∧ control_shown Sample.signed_out (DeleteThread 1) = false.
Proof.
  destruct (operations_without_credentials Sample.signed_out
              (Responded true (Normal []))) as (Hcreate & _ & _ & Hcontrols).
  split.
  - apply (proj1 (Hcreate eq_refl)).
  - apply (proj1 (Hcontrols eq_refl (DeleteThread 1))).
Defined.

(** C7 as stated fails for the delete handlers: no session is active, a
    token is recorded for thread 1, and [handleDeleteThread] sends the
    DELETE request; no message is set. *)
Lemma handleDeleteThread_without_session :
  let handler := handleDeleteThread Sample.signed_out 1
                   (Responded true (Normal tt)) (Responded true (Normal [])) in
  isAuthed Sample.signed_out = false
  ∧ requests handler Sample.signed_out
    = [DELETE_thread 1 (JString "abc123"); GET_threads]
  ∧ error (after handler Sample.signed_out) = None
  ∧ ¬ (requests handler Sample.signed_out = []
       ∧ is_Some (error (after handler Sample.signed_out))).
Proof.
  intros handler.
  assert (requests handler Sample.signed_out
          = [DELETE_thread 1 (JString "abc123"); GET_threads]) as Hsent
    by (by vm_compute).
  split; [done|]. split; [done|]. split; [by vm_compute|].
  intros [Hnone _]. by rewrite Hsent in Hnone.
Qed.

(** ** Start-up from storage *)

Section Rehydration.

Variable JSON_parse : string → completion json.
Variable numeric_key : string → string.

Lemma readTokenMap_returns storage key :
  ∃ tokens, readTokenMap JSON_parse numeric_key storage key = Normal tokens.
Proof.
  unfold readTokenMap, try_.
  destruct (match storage !! key with Some _ => _ | None => _ end); eauto.
Qed.

Lemma readTokenMap_missing storage key :
  storage !! key = None →
  readTokenMap JSON_parse numeric_key storage key = Normal ∅.
Proof. intros H. unfold readTokenMap. by rewrite H. Qed.

Lemma readTokenMap_empty storage key :
  storage !! key = Some "" →
  readTokenMap JSON_parse numeric_key storage key = Normal ∅.
Proof. intros H. unfold readTokenMap. by rewrite H. Qed.

Lemma readTokenMap_malformed storage key raw e :
  storage !! key = Some raw → JSON_parse raw = Throw e →
  readTokenMap JSON_parse numeric_key storage key = Normal ∅.
Proof.
  intros H Hparse. unfold readTokenMap. rewrite H.
  destruct (JS.truthy_string raw); [|done]. simpl. by rewrite Hparse.
Qed.

Lemma readStoredAuthUser_returns storage :
  ∃ user, readStoredAuthUser JSON_parse storage = Normal user.
Proof.
  unfold readStoredAuthUser, try_.
  destruct (match storage !! authUserStorageKey with
            | Some _ => _ | None => _ end); eauto.
Qed.

Lemma readStoredAuthUser_absent storage :
  storage !! authUserStorageKey = None
  ∨ storage !! authUserStorageKey = Some ""
  ∨ (∃ raw e, storage !! authUserStorageKey = Some raw
              ∧ JSON_parse raw = Throw e) →
  readStoredAuthUser JSON_parse storage = Normal JNull.
Proof.
  unfold readStoredAuthUser.
  intros [H|[H|(raw & e & H & Hparse)]]; rewrite H; [done..|].
  destruct (JS.truthy_string raw); [|done]. simpl. by rewrite Hparse.
Qed.

Lemma initialState_returns storage :
  ∃ st, initialState JSON_parse numeric_key storage = Normal st
        ∧ readTokenMap JSON_parse numeric_key storage threadTokenStorageKey
          = Normal (threadTokens st)
        ∧ readTokenMap JSON_parse numeric_key storage replyTokenStorageKey
          = Normal (replyTokens st)
        ∧ authToken st = storage !! authTokenStorageKey
        ∧ readStoredAuthUser JSON_parse storage = Normal (authUser st).
Proof.
  unfold initialState.
  destruct (readTokenMap_returns storage threadTokenStorageKey) as [t ->].
  destruct (readTokenMap_returns storage replyTokenStorageKey) as [r ->].
  destruct (readStoredAuthUser_returns storage) as [u ->].
  by eexists.
Qed.

End Rehydration.

(** C9: whatever the storage holds, reading the token maps and the
    stored user at start-up returns and throws nothing.  A token map that
    is missing, empty or not JSON text is read as the empty map; a stored
    user that is missing, empty or not JSON text is read as null; and
    without a stored bearer token or without a readable stored user the
    component starts with no session. *)
Theorem rehydration_never_throws (JSON_parse : string → completion json)
    (numeric_key : string → string) (storage : Storage) :
  ∃ st,
    initialState JSON_parse numeric_key storage = Normal st
    ∧ (∀ key,
         (∃ tokens, readTokenMap JSON_parse numeric_key storage key = Normal tokens)
         ∧ (storage !! key = None ∨ storage !! key = Some ""
            ∨ (∃ raw e, storage !! key = Some raw ∧ JSON_parse raw = Throw e) →
            readTokenMap JSON_parse numeric_key storage key = Normal ∅))
    ∧ (∃ user, readStoredAuthUser JSON_parse storage = Normal user)
    ∧ (storage !! authUserStorageKey = None
       ∨ storage !! authUserStorageKey = Some ""
       ∨ (∃ raw e, storage !! authUserStorageKey = Some raw
                   ∧ JSON_parse raw = Throw e) →
       readStoredAuthUser JSON_parse storage = Normal JNull
       ∧ authUser st = JNull ∧ isAuthed st = false)
    ∧ (storage !! authTokenStorageKey = None → isAuthed st = false).
Proof.
  destruct (initialState_returns JSON_parse numeric_key storage)
    as (st & Hst & Hthread & Hreply & Htoken & Huser).
  exists st. split; [done|]. split; [|split; [|split]].
  - intros key. split; [apply readTokenMap_returns|].
    intros [H|[H|(raw & e & H & Hparse)]].
    + by apply readTokenMap_missing.
    + by apply readTokenMap_empty.
    + by eapply readTokenMap_malformed.
  - apply readStoredAuthUser_returns.
  - intros Habsent%(readStoredAuthUser_absent JSON_parse).
    split; [done|]. rewrite Habsent in Huser. injection Huser as Hnull.
    split; [done|]. unfold isAuthed. by rewrite <- Hnull, andb_false_r.
  - intros Hnone. unfold isAuthed. by rewrite Htoken, Hnone.
Qed.

Lemma rehydration_never_throws_witness :
  let storage : Storage :=
    {[threadTokenStorageKey := "{bad"; authUserStorageKey := "oops";
      authTokenStorageKey := "bearer"]} in
  readTokenMap Sample.JSON_parse Sample.numeric_key storage threadTokenStorageKey
  = Normal ∅
  ∧ readTokenMap Sample.JSON_parse Sample.numeric_key storage replyTokenStorageKey
    = Normal ∅
  ∧ readStoredAuthUser Sample.JSON_parse storage = Normal JNull.
Proof.
  intros storage.
  destruct (rehydration_never_throws Sample.JSON_parse Sample.numeric_key storage)
    as (st & _ & Hmaps & _ & Huser & _).
  split; [|split].
  - apply (proj2 (Hmaps threadTokenStorageKey)). right. right.
    exists "{bad", (Error "Unexpected token in JSON"). by vm_compute.
  - apply (proj2 (Hmaps replyTokenStorageKey)). left. by vm_compute.
  - apply Huser. right. right.
    exists "oops", (Error "Unexpected token in JSON"). by vm_compute.
Defined.

(** ** Reload *)

Lemma Object_fromEntries_map_to_list (tokens : gmap string json) :
  Object_fromEntries (map_to_list tokens) = tokens.
Proof.
  unfold Object_fromEntries.
  rewrite <- (list_to_map_to_list tokens) at 2.
  rewrite <- (list_to_map_proper (reverse (map_to_list tokens)));
    [|rewrite reverse_Permutation; apply NoDup_fst_map_to_list
     |apply reverse_Permutation].
  unfold list_to_map.
  rewrite <- (rev_involutive (map_to_list tokens)) at 1.
  rewrite <- fold_left_rev_right, rev_involutive.
  by rewrite rev_alt.
Qed.

Section Reload.

Variable JSON_parse : string → completion json.
Variable JSON_stringify : json → string.
Variable numeric_key : string → string.

Lemma readTokenMap_reads_back storage key tokens :
  reads_back JSON_parse JSON_stringify numeric_key tokens →
  storage !! key = Some (JSON_stringify (tokens_object tokens)) →
  readTokenMap JSON_parse numeric_key storage key = Normal tokens.
Proof.
  intros (Hnonempty & Hparse & Hkeys) Hstored.
  unfold readTokenMap. rewrite Hstored.
  destruct (JSON_stringify (tokens_object tokens)) as [|c text] eqn:Htext;
    [done|].
  simpl JS.truthy_string. cbn [negb]. rewrite Hparse. simpl.
  replace ((λ entry : string * json, (numeric_key entry.1, entry.2))
           <$> map_to_list tokens) with (map_to_list tokens).
  - by rewrite Object_fromEntries_map_to_list.
  - rewrite <- (list_fmap_id (map_to_list tokens)) at 1.
    apply Forall_fmap_ext_1, Forall_forall. intros [k v] Hin.
    apply elem_of_map_to_list in Hin. simpl. by rewrite (Hkeys k v Hin).
Qed.

Lemma persist_thread_tokens st storage :
  persist JSON_stringify st storage !! threadTokenStorageKey
  = Some (JSON_stringify (tokens_object (threadTokens st))).
Proof.
  unfold persist, threadTokenStorageKey, replyTokenStorageKey,
    authTokenStorageKey, authUserStorageKey.
  destruct (truthy (authUser st)), (JS.truthy_opt_string (authToken st));
    repeat first [rewrite lookup_insert_ne by done
                 |rewrite lookup_delete_ne by done];
    apply lookup_insert_eq.
Qed.

Lemma persist_reply_tokens st storage :
  persist JSON_stringify st storage !! replyTokenStorageKey
  = Some (JSON_stringify (tokens_object (replyTokens st))).
Proof.
  unfold persist, threadTokenStorageKey, replyTokenStorageKey,
    authTokenStorageKey, authUserStorageKey.
  destruct (truthy (authUser st)), (JS.truthy_opt_string (authToken st));
    repeat first [rewrite lookup_insert_ne by done
                 |rewrite lookup_delete_ne by done];
    apply lookup_insert_eq.
Qed.

Lemma reload_thread_tokens st storage :
  reads_back JSON_parse JSON_stringify numeric_key (threadTokens st) →
  ∃ st', reload JSON_parse JSON_stringify numeric_key st storage = Normal st'
         ∧ threadTokens st' = threadTokens st.
Proof.
  intros Hback. unfold reload.
  destruct (initialState_returns JSON_parse numeric_key
              (persist JSON_stringify st storage))
    as (st' & Hst' & Hthread & _).
  exists st'. split; [done|].
  rewrite (readTokenMap_reads_back _ _ (threadTokens st)) in Hthread;
    [congruence|done|apply persist_thread_tokens].
Qed.

Lemma reload_reply_tokens st storage :
  reads_back JSON_parse JSON_stringify numeric_key (replyTokens st) →
  ∃ st', reload JSON_parse JSON_stringify numeric_key st storage = Normal st'
         ∧ replyTokens st' = replyTokens st.
Proof.
  intros Hback. unfold reload.
  destruct (initialState_returns JSON_parse numeric_key
              (persist JSON_stringify st storage))
    as (st' & Hst' & _ & Hreply & _).
  exists st'. split; [done|].
  rewrite (readTokenMap_reads_back _ _ (replyTokens st)) in Hreply;
    [congruence|done|apply persist_reply_tokens].
Qed.

(** The keys of the maps the component builds are spellings of
    numbers: what it reads from storage went through line 43, what it
    adds is the id of a created entity. *)
Lemma numeric_keys_insert (tokens : gmap string json) id token :
  numeric_key (token_key id) = token_key id →
  map_Forall (λ k _, numeric_key k = k) tokens →
  map_Forall (λ k (_ : json), numeric_key k = k)
    (<[token_key id := token]> tokens).
Proof. intros Hid Hkeys. by apply map_Forall_insert_2. Qed.

Lemma numeric_keys_fromEntries (entries : list (string * json)) :
  (∀ k, numeric_key (numeric_key k) = numeric_key k) →
  map_Forall (λ k (_ : json), numeric_key k = k)
    (Object_fromEntries ((λ entry, (numeric_key entry.1, entry.2)) <$> entries)).
Proof.
  intros Hidem. unfold Object_fromEntries.
  assert (∀ acc : gmap string json,
            map_Forall (λ k _, numeric_key k = k) acc →
            map_Forall (λ k _, numeric_key k = k)
              (fold_left (λ object entry, <[entry.1 := entry.2]> object)
                 ((λ entry, (numeric_key entry.1, entry.2)) <$> entries) acc))
    as Hfold.
  { induction entries as [|[k v] entries IH]; intros acc Hacc; [done|].
    rewrite fmap_cons. simpl. apply IH.
    apply map_Forall_insert_2; [apply Hidem|done]. }
  apply Hfold, map_Forall_empty.
Qed.

Lemma readTokenMap_numeric_keys storage key tokens :
  (∀ k, numeric_key (numeric_key k) = numeric_key k) →
  readTokenMap JSON_parse numeric_key storage key = Normal tokens →
  map_Forall (λ k (_ : json), numeric_key k = k) tokens.
Proof.
  intros Hidem. unfold readTokenMap, try_.
  destruct (storage !! key) as [raw|]; [|intros [= <-]; apply map_Forall_empty].
  destruct (JS.truthy_string raw); simpl;
    [|intros [= <-]; apply map_Forall_empty].
  destruct (JSON_parse raw) as [parsed|e]; simpl;
    [|intros [= <-]; apply map_Forall_empty].
  destruct (Object_entries parsed) as [entries|e]; simpl;
    [|intros [= <-]; apply map_Forall_empty].
  intros [= <-]. by apply numeric_keys_fromEntries.
Qed.

Lemma numeric_keys_delete (tokens : gmap string json) id :
  map_Forall (λ k (_ : json), numeric_key k = k) tokens →
  map_Forall (λ k (_ : json), numeric_key k = k) (delete (token_key id) tokens).
Proof. intros Hkeys. by apply map_Forall_delete. Qed.

End Reload.

(** A thread created with success has its token recorded: the token of
    the response, or the generated one when the response has none. *)
Lemma handleCreateThread_records st ownerToken response listing :
  JS.truthy_opt_string (authToken st) = true →
  threadTokens (after (handleCreateThread st ownerToken
                         (Responded true (Normal response)) listing) st)
  = <[token_key (thread_id (created_thread response)) :=
        JString (JS.or_string (Some (thread_owner_token response)) ownerToken)]>
      (threadTokens st).
Proof.
  intros Hbearer. run_handler. rewrite Hbearer. cbn.
  by destruct listing as [reason|[] [data|e]].
Qed.

Lemma handleCreateReply_records st threadId ownerToken response listing :
  JS.truthy_opt_string (authToken st) = true →
  replyTokens (after (handleCreateReply st threadId ownerToken
                        (Responded true (Normal response)) listing) st)
  = <[token_key (reply_id (created_reply response)) :=
        JString (JS.or_string (Some (reply_owner_token response)) ownerToken)]>
      (replyTokens st).
Proof.
  intros Hbearer. run_handler. rewrite Hbearer. cbn.
  by destruct listing as [reason|[] [data|e]].
Qed.

(** C8: once a token is recorded for an id, in the thread map or in the
    reply map, the state is written to storage and a fresh component is
    started from that storage, the fresh component holds the same token
    for the same id, and the whole map with it.  The platform is taken to
    read back the JSON text it wrote for the map ([reads_back]). *)
Theorem recorded_token_survives_reload (JSON_parse : string → completion json)
    (JSON_stringify : json → string) (numeric_key : string → string)
    (st : AppState) (storage : Storage) (id : Z) (token : string) :
  let thread_recorded :=
    setThreadTokens (λ prev, <[token_key id := JString token]> prev) st in
  let reply_recorded :=
    setReplyTokens (λ prev, <[token_key id := JString token]> prev) st in
  (reads_back JSON_parse JSON_stringify numeric_key (threadTokens thread_recorded) →
   ∃ st', reload JSON_parse JSON_stringify numeric_key thread_recorded storage
          = Normal st'
          ∧ threadTokens st' !! token_key id = Some (JString token)
          ∧ threadTokens st' = threadTokens thread_recorded)
  ∧ (reads_back JSON_parse JSON_stringify numeric_key (replyTokens reply_recorded) →
     ∃ st', reload JSON_parse JSON_stringify numeric_key reply_recorded storage
            = Normal st'
            ∧ replyTokens st' !! token_key id = Some (JString token)
            ∧ replyTokens st' = replyTokens reply_recorded).
Proof.
  intros thread_recorded reply_recorded. split; intros Hback.
  - destruct (reload_thread_tokens _ _ _ thread_recorded storage Hback)
      as (st' & Hst' & Htokens).
    exists st'. split; [done|]. split; [|done].
    rewrite Htokens. apply lookup_insert_eq.
  - destruct (reload_reply_tokens _ _ _ reply_recorded storage Hback)
      as (st' & Hst' & Htokens).
    exists st'. split; [done|]. split; [|done].
    rewrite Htokens. apply lookup_insert_eq.
Qed.

Lemma recorded_token_survives_reload_witness :
  ∃ st', reload Sample.JSON_parse Sample.JSON_stringify Sample.numeric_key
           (setThreadTokens (λ prev, <[token_key 5 := JString "xyz789"]> prev)
              Sample.signed_in) ∅ = Normal st'
         ∧ threadTokens st' !! token_key 5 = Some (JString "xyz789")
         ∧ threadTokens st' !! token_key 1 = Some (JString "abc123").
Proof.
  destruct (recorded_token_survives_reload Sample.JSON_parse
              Sample.JSON_stringify Sample.numeric_key Sample.signed_in ∅ 5
              "xyz789") as [Hthread _].
  destruct Hthread as (st' & Hst' & Hfive & Hall).
  - split; [by vm_compute|]. split; [by vm_compute|].
    apply (bool_decide_unpack _). by vm_compute.
  - exists st'. split; [exact Hst'|]. split; [exact Hfive|].
    rewrite Hall. by vm_compute.
Defined.

(** * Further properties *)


(** ** The grouping loses nothing *)

Lemma join_fmap_Permutation {A} (f : list A → list A) (ls : list (list A)) :
  (∀ l, f l ≡ₚ l) → mjoin (f <$> ls) ≡ₚ mjoin ls.
Proof.
  intros Hf. induction ls as [|l ls IH]; [done|].
  rewrite fmap_cons. simpl. by rewrite Hf, IH.
Qed.

Lemma group_push_members (grouped : gmap string (list Reply)) (reply : Reply) :
  mjoin ((map_to_list (group_push grouped reply)).*2)
  ≡ₚ reply :: mjoin ((map_to_list grouped).*2).
Proof.
  unfold group_push. set (key := parent_key (reply_parent_id reply)).
  destruct (grouped !! key) as [g|] eqn:Hg; simpl.
  - rewrite <- insert_delete_eq.
    rewrite map_to_list_insert by apply lookup_delete_eq.
    rewrite <- (map_to_list_delete grouped key g Hg).
    rewrite !fmap_cons. simpl.
    rewrite <- app_assoc, (Permutation_app_comm g), <- app_assoc. simpl.
    by rewrite Permutation_app_comm.
  - by rewrite map_to_list_insert.
Qed.

(** X1: the groups of [repliesByParent], joined, are a rearrangement of
    the replies handed in: every reply is in one group, once for each
    time it occurs in the input. *)
Theorem repliesByParent_partition (Date_value : string → Z)
    (replies : list Reply) :
  mjoin ((map_to_list (repliesByParent Date_value replies)).*2) ≡ₚ replies.
Proof.
  unfold repliesByParent. rewrite map_to_list_fmap, <- list_fmap_compose.
  change (snd ∘ prod_map id (JS.sort (by_created_at Date_value)))
    with (JS.sort (by_created_at Date_value) ∘ (snd : string * list Reply → _)).
  rewrite list_fmap_compose.
  rewrite join_fmap_Permutation by apply sort_Permutation.
  unfold group_replies.
  assert (∀ acc : gmap string (list Reply),
            mjoin ((map_to_list (fold_left group_push replies acc)).*2)
            ≡ₚ mjoin ((map_to_list acc).*2) ++ replies) as Hfold.
  { induction replies as [|r l IH]; intros acc; simpl.
    - by rewrite app_nil_r.
    - rewrite IH, group_push_members. by rewrite <- Permutation_middle. }
  by rewrite Hfold, map_to_list_empty.
Qed.

(** ** The grouping and the order of the input *)



(** ** The rendered tree *)

Section Rendered.

Variable Date_value : string → Z.
Variable DateTimeFormat_format : string → completion string.
Variable canInteract : bool.
Variable canDeleteReply : Z → bool.
Variable replies : list Reply.

Local Abbreviation render fuel :=
  (renderReplies DateTimeFormat_format canInteract canDeleteReply fuel
     (repliesByParent Date_value replies)).

Lemma elem_of_all_divs (e : Element) (es : list Element) :
  e ∈ all_divs es ↔ ∃ e', e' ∈ es ∧ e ∈ divs e'.
Proof.
  unfold all_divs. rewrite list_elem_of_In, in_flat_map.
  split; intros (e' & He' & He); exists e'; by rewrite ?list_elem_of_In in *.
Qed.

(** Every div of a result holds the result of the call for its reply. *)
Lemma div_rendered fuel p d out e :
  render fuel p d = Some (Normal out) → e ∈ all_divs out →
  ∃ fuel', render (S fuel') (Some (reply_id (element_reply e)))
             (S (element_depth e)) = Some (Normal (element_nested e))
           ∧ element_reply e ∈ replies
           ∧ element_replyButton e = canInteract
           ∧ element_deleteButton e = canDeleteReply (reply_id (element_reply e)).
Proof.
  revert p d out. induction fuel as [|fuel IH]; intros p d out H Hin; [done|].
  apply elem_of_all_divs in Hin as (e' & He' & Hin).
  destruct (render_element _ _ _ _ _ _ _ _ _ _ H He')
    as (c & nested & Hc & Hp & Hn & ->).
  simpl in Hin. apply elem_of_cons in Hin as [->|Hin].
  - exists fuel. simpl element_reply. simpl element_depth. simpl element_nested.
    split; [by apply render_more_fuel|done].
  - by apply (IH (Some (reply_id c)) (S d) nested).
Qed.

Lemma render_depths fuel p d out :
  render fuel p d = Some (Normal out) → Forall (λ e, element_depth e = d) out.
Proof.
  intros H. destruct fuel as [|fuel]; [done|].
  apply Forall_forall. intros e He.
  by destruct (render_element _ _ _ _ _ _ _ _ _ _ H He)
    as (c & n & _ & _ & _ & ->).
Qed.

End Rendered.

(** X3: the rendered list shows the replies without parent, oldest
    first, at depth 0, and inside the div of every reply it shows the
    replies whose parent id is the id of that reply, oldest first, one
    level deeper. *)
Theorem reply_list_order (Date_value : string → Z)
    (DateTimeFormat_format : string → completion string) (canInteract : bool)
    (canDeleteReply : Z → bool) (replies : list Reply) (fuel : nat)
    (out : list Element) :
  reply_list Date_value DateTimeFormat_format canInteract canDeleteReply
    fuel replies = Some (Normal out) →
  let time r := Date_value (reply_created_at r) in
  let shown (p : option Z) (d : nat) (es : list Element) :=
    element_reply <$> es ≡ₚ filter (λ r, reply_parent_id r = p) replies
    ∧ StronglySorted (λ a b, time a ≤ time b) (element_reply <$> es)
    ∧ Forall (λ e, element_depth e = d) es in
  shown None 0%nat out
  ∧ ∀ e, e ∈ all_divs out →
         shown (Some (reply_id (element_reply e))) (S (element_depth e))
           (element_nested e).
Proof.
  intros Hout time shown.
  assert (∀ fuel' p d es,
            renderReplies DateTimeFormat_format canInteract canDeleteReply fuel'
              (repliesByParent Date_value replies) p d = Some (Normal es) →
            shown p d es) as Hshown.
  { intros fuel' p d es Hes. unfold shown.
    destruct fuel' as [|fuel']; [done|].
    rewrite (render_replies _ _ _ _ _ _ _ _ _ Hes), children_of_sort.
    split; [apply sort_Permutation|].
    split; [by apply (sort_sorted time)|].
    by apply (render_depths _ _ _ _ _ _ _ _ _ Hes). }
  split; [by apply (Hshown fuel)|].
  intros e He.
  destruct (div_rendered _ _ _ _ _ _ _ _ _ _ Hout He) as (fuel' & Hn & _).
  by apply (Hshown (S fuel')).
Qed.

Lemma reply_list_order_witness :
  let R1 := Sample.reply 1 None "2024-05-01T10:00:00Z" in
  let R2 := Sample.reply 2 (Some 1) "2024-05-01T10:05:00Z" in
  let R3 := Sample.reply 3 None "2024-05-01T10:02:00Z" in
  ∃ out,
    reply_list Sample.Date_value Sample.DateTimeFormat_format true (λ _, false)
      4 [R3; R2; R1] = Some (Normal out)
    ∧ element_reply <$> out = [R1; R3]
    ∧ StronglySorted
        (λ a b, Sample.Date_value (reply_created_at a)
                ≤ Sample.Date_value (reply_created_at b))
        (element_reply <$> out).
Proof.
  intros R1 R2 R3.
  destruct (reply_list Sample.Date_value Sample.DateTimeFormat_format true
              (λ _, false) 4 [R3; R2; R1])
    as [[out|err]|] eqn:Hout; [|by vm_compute in Hout..].
  exists out. split; [reflexivity|].
  destruct (reply_list_order _ _ _ _ _ _ _ Hout) as ((_ & Hsorted & _) & _).
  split; [|exact Hsorted].
  vm_compute in Hout. injection Hout as <-. reflexivity.
Defined.

(** X4: in the list of a thread as [App] renders it, the div of every
    reply has the "Reply to this" button exactly when a session is
    active, and the "Delete" button exactly when the reply map holds a
    truthy token for the id of the reply and a session is active; without
    a session no div of the list has a button. *)
Theorem thread_reply_list_buttons (Date_value : string → Z)
    (DateTimeFormat_format : string → completion string) (st : AppState)
    (fuel : nat) (thread : Thread) (out : list Element) :
  thread_reply_list Date_value DateTimeFormat_format st fuel thread
  = Some (Normal out) →
  ∀ e, e ∈ all_divs out →
       element_reply e ∈ thread_replies thread
       ∧ element_replyButton e = isAuthed st
       ∧ element_deleteButton e
         = truthy_opt (replyTokens st !! token_key (reply_id (element_reply e)))
           && isAuthed st
       ∧ (isAuthed st = false →
          element_replyButton e = false ∧ element_deleteButton e = false).
Proof.
  unfold thread_reply_list, reply_list. intros Hout e He.
  destruct (div_rendered _ _ _ _ _ _ _ _ _ _ Hout He)
    as (_ & _ & Hin & Hreply & Hdelete).
  split; [done|]. split; [done|]. split; [done|].
  intros Hauth. rewrite Hreply, Hdelete. unfold canDeleteReply.
  by rewrite Hauth, andb_false_r.
Qed.

Lemma thread_reply_list_buttons_witness :
  let R7 := Sample.reply 7 None "2024-05-01T10:00:00Z" in
  let thread := mkThread 1 "title" "text" None true "2024-05-01T09:00:00Z" [R7] in
  ∃ out e,
    thread_reply_list Sample.Date_value Sample.DateTimeFormat_format
      Sample.signed_in 3 thread = Some (Normal out)
    ∧ e ∈ all_divs out
    ∧ element_reply e = R7
    ∧ element_deleteButton e = true.
Proof.
  intros R7 thread.
  destruct (thread_reply_list Sample.Date_value Sample.DateTimeFormat_format
              Sample.signed_in 3 thread)
    as [[out|err]|] eqn:Hout; [|by vm_compute in Hout..].
  exists out, (ReplyDiv R7 0 true true []).
  assert (ReplyDiv R7 0 true true [] ∈ all_divs out) as He.
  { vm_compute in Hout. injection Hout as <-. left. }
  split; [reflexivity|]. split; [exact He|]. split; [reflexivity|].
  destruct (thread_reply_list_buttons _ _ _ _ _ _ Hout _ He)
    as (_ & _ & Hdelete & _).
  rewrite Hdelete. by vm_compute.
Defined.

(** ** The handlers, outcome by outcome *)

Global Instance token_key_inj : Inj (=) (=) token_key.
Proof. intros a b H. by apply (inj (pretty (A:=Z))). Qed.

(** X5: [loadThreads] sends the one GET request and ends with the
    loading flag down.  A good answer replaces the thread list and leaves
    no error; any failure keeps the list that was shown and leaves its
    message: "Could not load threads." for a non-success status, the
    message of the error otherwise.  No other cell changes. *)
Theorem loadThreads_outcome (st : AppState) (listing : fetched (list Thread)) :
  let st' := after (loadThreads listing) st in
  (run (loadThreads listing) st).1 = Normal tt
  ∧ requests (loadThreads listing) st = [GET_threads]
  ∧ loading st' = false
  ∧ match listing with
    | Responded true (Normal data) => threads st' = data ∧ error st' = None
    | Responded true (Throw e) =>
        threads st' = threads st ∧ error st' = Some (message e)
    | Responded false _ =>
        threads st' = threads st ∧ error st' = Some "Could not load threads."
    | Rejected reason =>
        threads st' = threads st ∧ error st' = Some (message reason)
    end
  ∧ st' = setLoading (λ _, false)
            (setError (λ _, error st') (setThreads (λ _, threads st') st)).
Proof.
  intros st'. subst st'. run_handler.
  by destruct listing as [reason|[] [data|e]].
Qed.

(** X6: no handler lets an exception escape: whatever the network
    answers, the four handlers return normally. *)
Theorem handlers_return_normally (st : AppState) (threadId replyId : Z)
    (ownerToken : string) (threadCreation : fetched ThreadCreateResponse)
    (replyCreation : fetched ReplyCreateResponse) (deletion : fetched unit)
    (listing : fetched (list Thread)) :
  (run (handleCreateThread st ownerToken threadCreation listing) st).1 = Normal tt
  ∧ (run (handleCreateReply st threadId ownerToken replyCreation listing) st).1
    = Normal tt
  ∧ (run (handleDeleteThread st threadId deletion listing) st).1 = Normal tt
  ∧ (run (handleDeleteReply st threadId replyId deletion listing) st).1
    = Normal tt.
Proof.
  run_handler. split; [|split; [|split]].
  - destruct (JS.truthy_opt_string (authToken st)); cbn; [|done].
    destruct threadCreation as [reason|[] [response|e]]; cbn; try done.
    by destruct listing as [reason|[] [data|e]].
  - destruct (JS.truthy_opt_string (authToken st)); cbn; [|done].
    destruct replyCreation as [reason|[] [response|e]]; cbn; try done.
    by destruct listing as [reason|[] [data|e]].
  - destruct (truthy_opt (threadTokens st !! token_key threadId)); cbn; [|done].
    destruct deletion as [reason|[] payload]; cbn; try done.
    by destruct listing as [reason|[] [data|e]].
  - destruct (truthy_opt (replyTokens st !! token_key replyId)); cbn; [|done].
    destruct deletion as [reason|[] payload]; cbn; try done.
    by destruct listing as [reason|[] [data|e]].
Qed.

(** X7: a handler sends its own request at most once and asks for the
    thread list only after that request has succeeded: the requests of
    a run are none, the one request, or the one request followed by the
    GET of the list.  Nothing is sent twice. *)
Theorem handlers_send_once (st : AppState) (threadId replyId : Z)
    (ownerToken : string) (threadCreation : fetched ThreadCreateResponse)
    (replyCreation : fetched ReplyCreateResponse) (deletion : fetched unit)
    (listing : fetched (list Thread)) :
  sent_once (requests (handleCreateThread st ownerToken threadCreation listing) st)
    (λ request, ∃ bearer title body author anonymous,
       request = POST_thread bearer title body author anonymous ownerToken)
    (created threadCreation)
  ∧ sent_once
      (requests (handleCreateReply st threadId ownerToken replyCreation listing) st)
      (λ request, ∃ bearer body parent author anonymous,
         request = POST_reply threadId bearer body parent author anonymous
                     ownerToken)
      (created replyCreation)
  ∧ sent_once (requests (handleDeleteThread st threadId deletion listing) st)
      (λ request, ∃ token, request = DELETE_thread threadId token)
      (deleted deletion)
  ∧ sent_once
      (requests (handleDeleteReply st threadId replyId deletion listing) st)
      (λ request, ∃ token, request = DELETE_reply threadId replyId token)
      (deleted deletion).
Proof.
  unfold sent_once, created, deleted. run_handler.
  split; [|split; [|split]].
  - destruct (JS.truthy_opt_string (authToken st)); cbn; [|by left].
    right.
    destruct threadCreation as [reason|[] [response|e]]; cbn;
      try (left; eexists; split; [by repeat eexists|];
           split; [done|]; by intros [? ?]).
    right. eexists. split; [by repeat eexists|].
    split; [|by eexists]. by destruct listing as [reason|[] [data|e]].
  - destruct (JS.truthy_opt_string (authToken st)); cbn; [|by left].
    right.
    destruct replyCreation as [reason|[] [response|e]]; cbn;
      try (left; eexists; split; [by repeat eexists|];
           split; [done|]; by intros [? ?]).
    right. eexists. split; [by repeat eexists|].
    split; [|by eexists]. by destruct listing as [reason|[] [data|e]].
  - destruct (truthy_opt (threadTokens st !! token_key threadId)); cbn; [|by left].
    right.
    destruct deletion as [reason|[] payload]; cbn;
      try (left; eexists; split; [by eexists|];
           split; [done|]; by intros [? ?]).
    right. eexists. split; [by eexists|].
    split; [|by eexists]. by destruct listing as [reason|[] [data|e]].
  - destruct (truthy_opt (replyTokens st !! token_key replyId)); cbn; [|by left].
    right.
    destruct deletion as [reason|[] payload]; cbn;
      try (left; eexists; split; [by eexists|];
           split; [done|]; by intros [? ?]).
    right. eexists. split; [by eexists|].
    split; [|by eexists]. by destruct listing as [reason|[] [data|e]].
Qed.

(** What [loadThreads] leaves alone. *)
Lemma loadThreads_other_cells (st : AppState) (listing : fetched (list Thread)) :
  let st' := after (loadThreads listing) st in
  threadTokens st' = threadTokens st ∧ replyTokens st' = replyTokens st
  ∧ authToken st' = authToken st ∧ authUser st' = authUser st
  ∧ threadTitle st' = threadTitle st ∧ threadBody st' = threadBody st
  ∧ threadName st' = threadName st ∧ threadAnonymous st' = threadAnonymous st
  ∧ replyBodyByThread st' = replyBodyByThread st
  ∧ replyNameByThread st' = replyNameByThread st
  ∧ replyAnonymousByThread st' = replyAnonymousByThread st
  ∧ replyTargetByThread st' = replyTargetByThread st.
Proof.
  intros st'. subst st'. run_handler.
  by destruct listing as [reason|[] [data|e]].
Qed.

Lemma recorded_token_truthy (answered generated : string) :
  generated ≠ "" → truthy (recorded_token answered generated) = true.
Proof. intros Hg. destruct answered, generated; done. Qed.

Lemma handleCreateThread_success_run st ownerToken response listing :
  JS.truthy_opt_string (authToken st) = true →
  let handler := handleCreateThread st ownerToken
                   (Responded true (Normal response)) listing in
  let recorded :=
    setThreadAnonymous (λ _, true)
      (setThreadName (λ _, "")
         (setThreadBody (λ _, "")
            (setThreadTitle (λ _, "")
               (setThreadTokens
                  (λ prev, <[token_key (thread_id (created_thread response)) :=
                               recorded_token (thread_owner_token response)
                                 ownerToken]> prev)
                  (setError (λ _, None) st))))) in
  after handler st = after (loadThreads listing) recorded
  ∧ requests handler st
    = [POST_thread (default "" (authToken st)) (threadTitle st) (threadBody st)
         (thread_author st) (threadAnonymous st) ownerToken; GET_threads].
Proof.
  intros Hbearer handler recorded. subst handler recorded. run_handler.
  rewrite Hbearer. cbn. by destruct listing as [reason|[] [data|e]].
Qed.

(** X8: a thread created with success: the POST carries the stored bearer
    token and the generated owner token, and no author name when the
    anonymity flag is set; the token of the answer (the generated one,
    when the answer has an empty one) is recorded under the id of the
    new thread, the form is cleared, the reply map is untouched, and the
    thread list is asked for.  With a generated token that is not empty
    the new thread can be deleted exactly when a user is present. *)
Theorem handleCreateThread_succeeded (st : AppState) (ownerToken : string)
    (response : ThreadCreateResponse) (listing : fetched (list Thread)) :
  JS.truthy_opt_string (authToken st) = true →
  let handler := handleCreateThread st ownerToken
                   (Responded true (Normal response)) listing in
  let st' := after handler st in
  let id := thread_id (created_thread response) in
  (∃ bearer author,
     authToken st = Some bearer
     ∧ requests handler st
       = [POST_thread bearer (threadTitle st) (threadBody st) author
            (threadAnonymous st) ownerToken; GET_threads]
     ∧ (threadAnonymous st = true → author = JNull)
     ∧ (threadAnonymous st = false → threadName st ≠ "" →
        author = JString (threadName st)))
  ∧ threadTokens st'
    = <[token_key id :=
          JString (if decide (thread_owner_token response = "")
                   then ownerToken else thread_owner_token response)]>
        (threadTokens st)
  ∧ replyTokens st' = replyTokens st
  ∧ threadTitle st' = "" ∧ threadBody st' = "" ∧ threadName st' = ""
  ∧ threadAnonymous st' = true
  ∧ (ownerToken ≠ "" → canDeleteThread st' id = truthy (authUser st)).
Proof.
  intros Hbearer handler st' id. subst handler st' id.
  destruct (handleCreateThread_success_run st ownerToken response listing Hbearer)
    as [Hafter Hsent].
  rewrite Hafter, Hsent. clear Hafter Hsent.
  match goal with |- context [after (loadThreads listing) ?r] =>
    destruct (loadThreads_other_cells r listing)
      as (Ht & Hr & Hat & Hau & Htitle & Hbody & Hname & Hanon & _)
  end.
  cbn in Ht, Hr, Hat, Hau, Htitle, Hbody, Hname, Hanon.
  assert (recorded_token (thread_owner_token response) ownerToken
          = JString (if decide (thread_owner_token response = "")
                     then ownerToken else thread_owner_token response)) as Hrec.
  { unfold recorded_token. simpl. by destruct (thread_owner_token response). }
  split; [|split; [|split; [|split; [|split; [|split; [|split]]]]]]; try done.
  - destruct (authToken st) as [bearer|] eqn:Htoken; [|done].
    exists bearer, (thread_author st). split; [done|]. split; [done|].
    unfold thread_author. split.
    + by intros ->.
    + intros -> Hname'. simpl. by destruct (threadName st).
  - by rewrite Ht, Hrec.
  - intros Hgenerated. unfold canDeleteThread, isAuthed.
    rewrite Ht, Hat, Hau, lookup_insert_eq, Hbearer. cbn [truthy_opt].
    by rewrite recorded_token_truthy.
Qed.

Lemma handleCreateThread_succeeded_witness :
  let response :=
    mkThreadCreateResponse
      (mkThread 5 "title" "text" None true "2024-05-01T10:00:00Z" []) "abc123" in
  let st' := after (handleCreateThread Sample.signed_in "generated"
                      (Responded true (Normal response))
                      (Responded true (Normal []))) Sample.signed_in in
  threadTokens st' !! token_key 5 = Some (JString "abc123")
  ∧ canDeleteThread st' 5 = true.
Proof.
  intros response st'.
  destruct (handleCreateThread_succeeded Sample.signed_in "generated" response
              (Responded true (Normal [])) eq_refl)
    as (_ & Htokens & _ & _ & _ & _ & _ & Hcan).
  split.
  - fold st' in Htokens. rewrite Htokens. apply lookup_insert_eq.
  - etrans; [apply Hcan; done|reflexivity].
Defined.

Lemma handleCreateReply_success_run st threadId ownerToken response listing :
  JS.truthy_opt_string (authToken st) = true →
  let handler := handleCreateReply st threadId ownerToken
                   (Responded true (Normal response)) listing in
  let recorded :=
    setReplyTargetByThread (λ prev, <[threadId := None]> prev)
      (setReplyAnonymousByThread (λ prev, <[threadId := true]> prev)
         (setReplyNameByThread (λ prev, <[threadId := ""]> prev)
            (setReplyBodyByThread (λ prev, <[threadId := ""]> prev)
               (setReplyTokens
                  (λ prev, <[token_key (reply_id (created_reply response)) :=
                               recorded_token (reply_owner_token response)
                                 ownerToken]> prev)
                  (setError (λ _, None) st))))) in
  after handler st = after (loadThreads listing) recorded
  ∧ requests handler st
    = [POST_reply threadId (default "" (authToken st))
         (JS.or_string (replyBodyByThread st !! threadId) "")
         (mjoin (replyTargetByThread st !! threadId))
         (reply_author st threadId)
         (default true (replyAnonymousByThread st !! threadId))
         ownerToken; GET_threads].
Proof.
  intros Hbearer handler recorded. subst handler recorded. run_handler.
  rewrite Hbearer. cbn. by destruct listing as [reason|[] [data|e]].
Qed.

(** X9: a reply created with success: the token of the answer (the
    generated one, when the answer has an empty one) is recorded under
    the id of the new reply and the thread map is untouched; the draft of
    this thread is cleared (empty text and name, anonymous, no target)
    while the drafts of the other threads stay; the thread list is asked
    for.  With a generated token that is not empty the new reply can be
    deleted exactly when a user is present. *)
Theorem handleCreateReply_succeeded (st : AppState) (threadId : Z)
    (ownerToken : string) (response : ReplyCreateResponse)
    (listing : fetched (list Thread)) :
  JS.truthy_opt_string (authToken st) = true →
  let handler := handleCreateReply st threadId ownerToken
                   (Responded true (Normal response)) listing in
  let st' := after handler st in
  let id := reply_id (created_reply response) in
  replyTokens st'
  = <[token_key id :=
        JString (if decide (reply_owner_token response = "")
                 then ownerToken else reply_owner_token response)]>
      (replyTokens st)
  ∧ threadTokens st' = threadTokens st
  ∧ replyBodyByThread st' !! threadId = Some ""
  ∧ replyNameByThread st' !! threadId = Some ""
  ∧ replyAnonymousByThread st' !! threadId = Some true
  ∧ replyTargetByThread st' !! threadId = Some None
  ∧ (∀ other, other ≠ threadId →
       replyBodyByThread st' !! other = replyBodyByThread st !! other
       ∧ replyNameByThread st' !! other = replyNameByThread st !! other
       ∧ replyAnonymousByThread st' !! other = replyAnonymousByThread st !! other
       ∧ replyTargetByThread st' !! other = replyTargetByThread st !! other)
  ∧ (∃ request, requests handler st = [request; GET_threads])
  ∧ (ownerToken ≠ "" → canDeleteReply st' id = truthy (authUser st)).
Proof.
  intros Hbearer handler st' id. subst handler st' id.
  destruct (handleCreateReply_success_run st threadId ownerToken response
              listing Hbearer) as [Hafter Hsent].
  rewrite Hafter, Hsent. clear Hafter Hsent.
  match goal with |- context [after (loadThreads listing) ?r] =>
    destruct (loadThreads_other_cells r listing)
      as (Ht & Hr & Hat & Hau & _ & _ & _ & _ & Hbody & Hname & Hanon & Htarget)
  end.
  cbn in Ht, Hr, Hat, Hau, Hbody, Hname, Hanon, Htarget.
  assert (recorded_token (reply_owner_token response) ownerToken
          = JString (if decide (reply_owner_token response = "")
                     then ownerToken else reply_owner_token response)) as Hrec.
  { unfold recorded_token. simpl. by destruct (reply_owner_token response). }
  split; [by rewrite Hr, Hrec|]. split; [done|].
  rewrite Hbody, Hname, Hanon, Htarget.
  rewrite !lookup_insert_eq. do 4 (split; [done|]).
  split; [|split; [by eexists|]].
  - intros other Hother. by rewrite !lookup_insert_ne.
  - intros Hgenerated. unfold canDeleteReply, isAuthed.
    rewrite Hr, Hat, Hau, lookup_insert_eq, Hbearer. cbn [truthy_opt].
    by rewrite recorded_token_truthy.
Qed.

Lemma handleCreateReply_succeeded_witness :
  let response :=
    mkReplyCreateResponse (Sample.reply 9 None "2024-05-01T10:00:00Z") "" in
  let st' := after (handleCreateReply Sample.signed_in 1 "generated"
                      (Responded true (Normal response))
                      (Responded true (Normal []))) Sample.signed_in in
  replyTokens st' !! token_key 9 = Some (JString "generated")
  ∧ canDeleteReply st' 9 = true.
Proof.
  intros response st'.
  destruct (handleCreateReply_succeeded Sample.signed_in 1 "generated" response
              (Responded true (Normal [])) eq_refl)
    as (Htokens & _ & _ & _ & _ & _ & _ & _ & Hcan).
  split.
  - fold st' in Htokens. rewrite Htokens. apply lookup_insert_eq.
  - etrans; [apply Hcan; done|reflexivity].
Defined.

Lemma handleCreateReply_request st threadId ownerToken creation listing :
  JS.truthy_opt_string (authToken st) = true →
  ∃ rest,
    requests (handleCreateReply st threadId ownerToken creation listing) st
    = POST_reply threadId (default "" (authToken st))
        (JS.or_string (replyBodyByThread st !! threadId) "")
        (mjoin (replyTargetByThread st !! threadId))
        (reply_author st threadId)
        (default true (replyAnonymousByThread st !! threadId))
        ownerToken :: rest.
Proof.
  intros Hbearer. run_handler. rewrite Hbearer. cbn.
  destruct creation as [reason|[] [response|e]]; cbn; try by eexists.
  destruct listing as [reason|[] [data|e]]; cbn; by eexists.
Qed.

(** X10: what a reply request says of its author.  With the anonymity
    box of the thread ticked it carries no author name.  With the box
    never touched the request is marked anonymous all the same, and yet,
    no name being typed, it carries the username of the signed-in user
    as author name. *)
Theorem handleCreateReply_author (st : AppState) (threadId : Z)
    (ownerToken : string) (creation : fetched ReplyCreateResponse)
    (listing : fetched (list Thread)) :
  JS.truthy_opt_string (authToken st) = true →
  ∃ bearer body parent author anonymous rest,
    requests (handleCreateReply st threadId ownerToken creation listing) st
    = POST_reply threadId bearer body parent author anonymous ownerToken :: rest
    ∧ (replyAnonymousByThread st !! threadId = Some true →
       author = JNull ∧ anonymous = true)
    ∧ (replyAnonymousByThread st !! threadId = None →
       JS.truthy_opt_string (replyNameByThread st !! threadId) = false →
       ∀ username, member (authUser st) "username" = Some (JString username) →
                   username ≠ "" →
                   author = JString username ∧ anonymous = true).
Proof.
  intros Hbearer.
  destruct (handleCreateReply_request st threadId ownerToken creation listing
              Hbearer) as [rest Hsent].
  do 5 eexists. exists rest. split; [exact Hsent|].
  unfold reply_author. split.
  - by intros ->.
  - intros -> Hname username -> Husername. simpl.
    destruct (replyNameByThread st !! threadId) as [[|c name]|]; simpl in *;
      try done; by destruct username.
Qed.

Lemma handleCreateReply_author_witness :
  ∃ rest,
    requests (handleCreateReply Sample.signed_in 1 "generated"
                (Rejected (Error "offline")) (Rejected (Error "offline")))
      Sample.signed_in
    = POST_reply 1 "bearer" "" None (JString "ada") true "generated" :: rest.
Proof.
  destruct (handleCreateReply_author Sample.signed_in 1 "generated"
              (Rejected (Error "offline")) (Rejected (Error "offline")) eq_refl)
    as (bearer & body & parent & author & anonymous & rest & Hsent & _ & Hquirk).
  destruct (Hquirk eq_refl eq_refl "ada" eq_refl) as [-> ->]; [done|].
  exists rest. rewrite Hsent. vm_compute in Hsent.
  by injection Hsent as <- <- <- _.
Defined.

Lemma handleDeleteThread_success_run st threadId token payload listing :
  threadTokens st !! token_key threadId = Some token → truthy token = true →
  let handler := handleDeleteThread st threadId (Responded true payload) listing in
  after handler st
  = after (loadThreads listing)
      (setThreadTokens (λ prev, delete (token_key threadId) prev)
         (setError (λ _, None) st))
  ∧ requests handler st = [DELETE_thread threadId token; GET_threads].
Proof.
  intros Htoken Htruthy handler. subst handler. run_handler.
  rewrite Htoken. cbn. rewrite Htruthy. cbn.
  by destruct listing as [reason|[] [data|e]].
Qed.

Lemma handleDeleteReply_success_run st threadId replyId token payload listing :
  replyTokens st !! token_key replyId = Some token → truthy token = true →
  let handler :=
    handleDeleteReply st threadId replyId (Responded true payload) listing in
  after handler st
  = after (loadThreads listing)
      (setReplyTokens (λ prev, delete (token_key replyId) prev)
         (setError (λ _, None) st))
  ∧ requests handler st = [DELETE_reply threadId replyId token; GET_threads].
Proof.
  intros Htoken Htruthy handler. subst handler. run_handler.
  rewrite Htoken. cbn. rewrite Htruthy. cbn.
  by destruct listing as [reason|[] [data|e]].
Qed.

(** X11: a delete that succeeds sends the recorded token in the
    X-Owner-Token header, forgets the token of that id and of no other
    id, and asks for the thread list; the id can no longer be deleted,
    the capability of every other id is what it was.  Deleting a thread
    leaves the reply map as it is: the tokens of the replies of the
    thread stay recorded. *)
Theorem delete_succeeded (st : AppState) (threadId replyId : Z) (token : json)
    (payload : completion unit) (listing : fetched (list Thread)) :
  truthy token = true →
  (threadTokens st !! token_key threadId = Some token →
   let handler := handleDeleteThread st threadId (Responded true payload) listing in
   let st' := after handler st in
   requests handler st = [DELETE_thread threadId token; GET_threads]
   ∧ threadTokens st' = delete (token_key threadId) (threadTokens st)
   ∧ replyTokens st' = replyTokens st
   ∧ canDeleteThread st' threadId = false
   ∧ ∀ other, other ≠ threadId →
              canDeleteThread st' other = canDeleteThread st other)
  ∧ (replyTokens st !! token_key replyId = Some token →
     let handler :=
       handleDeleteReply st threadId replyId (Responded true payload) listing in
     let st' := after handler st in
     requests handler st = [DELETE_reply threadId replyId token; GET_threads]
     ∧ replyTokens st' = delete (token_key replyId) (replyTokens st)
     ∧ threadTokens st' = threadTokens st
     ∧ canDeleteReply st' replyId = false
     ∧ ∀ other, other ≠ replyId →
                canDeleteReply st' other = canDeleteReply st other).
Proof.
  intros Htruthy. split; intros Htoken handler st'; subst handler st'.
  - destruct (handleDeleteThread_success_run st threadId token payload listing
                Htoken Htruthy) as [-> ->].
    match goal with |- context [after (loadThreads listing) ?r] =>
      destruct (loadThreads_other_cells r listing) as (Ht & Hr & Hat & Hau & _)
    end.
    cbn in Ht, Hr, Hat, Hau.
    split; [done|]. split; [done|]. split; [done|].
    unfold canDeleteThread, isAuthed. rewrite Ht, Hat, Hau. split.
    + by rewrite lookup_delete_eq.
    + intros other Hother. rewrite lookup_delete_ne; [done|].
      intros Hkey. by apply (inj token_key) in Hkey.
  - destruct (handleDeleteReply_success_run st threadId replyId token payload
                listing Htoken Htruthy) as [-> ->].
    match goal with |- context [after (loadThreads listing) ?r] =>
      destruct (loadThreads_other_cells r listing) as (Ht & Hr & Hat & Hau & _)
    end.
    cbn in Ht, Hr, Hat, Hau.
    split; [done|]. split; [done|]. split; [done|].
    unfold canDeleteReply, isAuthed. rewrite Hr, Hat, Hau. split.
    + by rewrite lookup_delete_eq.
    + intros other Hother. rewrite lookup_delete_ne; [done|].
      intros Hkey. by apply (inj token_key) in Hkey.
Qed.

Lemma delete_succeeded_witness :
  let st' := after (handleDeleteThread Sample.signed_in 1
                      (Responded true (Normal tt)) (Responded true (Normal [])))
               Sample.signed_in in
  threadTokens st' = ∅
  ∧ replyTokens st' = Sample.tokens 7 "def456"
  ∧ canDeleteThread st' 1 = false.
Proof.
  intros st'.
  destruct (delete_succeeded Sample.signed_in 1 7 (JString "abc123") (Normal tt)
              (Responded true (Normal [])) eq_refl) as [Hthread _].
  destruct Hthread as (_ & Htokens & Hreplies & Hcan & _); [by vm_compute|].
  fold st' in Htokens, Hreplies, Hcan.
  split; [|split; [exact Hreplies|exact Hcan]].
  rewrite Htokens. by vm_compute.
Defined.

(** X12: a create that fails keeps what the user typed and shows one
    message.  With a bearer token stored, the state after a failed
    create is the state before with the error cell set: to "Failed to
    create thread." or "Failed to create reply." for a non-success
    status, to the message of the error when the request was rejected
    or the body of the answer could not be read. *)
Theorem create_failed (st : AppState) (threadId : Z) (ownerToken : string)
    (listing : fetched (list Thread)) :
  JS.truthy_opt_string (authToken st) = true →
  let shown {A} (outcome : fetched A) (status_text : string) : option string :=
    match outcome with
    | Rejected reason => Some (message reason)
    | Responded false _ => Some status_text
    | Responded true (Throw e) => Some (message e)
    | Responded true (Normal _) => None
    end in
  (∀ creation, ¬ created creation →
     after (handleCreateThread st ownerToken creation listing) st
     = setError (λ _, shown creation "Failed to create thread.") st)
  ∧ (∀ creation, ¬ created creation →
       after (handleCreateReply st threadId ownerToken creation listing) st
       = setError (λ _, shown creation "Failed to create reply.") st).
Proof.
  intros Hbearer shown. subst shown. unfold created.
  split; intros creation Hfailed; run_handler; rewrite Hbearer; cbn;
    destruct creation as [reason|[] [response|e]]; cbn; try done;
    destruct Hfailed; by eexists.
Qed.

Lemma create_failed_witness :
  let st := setThreadTitle (λ _, "Hello") Sample.signed_in in
  let st' := after (handleCreateThread st "generated"
                      (Responded false (Normal (mkThreadCreateResponse
                         (mkThread 5 "Hello" "" None true "" []) "abc123")))
                      (Responded true (Normal []))) st in
  threadTitle st' = "Hello" ∧ error st' = Some "Failed to create thread.".
Proof.
  intros st st'.
  destruct (create_failed st 1 "generated" (Responded true (Normal [])) eq_refl)
    as [Hthread _].
  unfold st'. rewrite Hthread; [done|]. by intros [? ?].
Defined.

(** X13: a delete that fails (with a truthy token recorded) leaves the
    state as it was but for the error cell, set to "Failed to delete
    thread." or "Failed to delete reply." for a non-success status and to
    the message of the error for a rejected request. *)
Theorem delete_failed (st : AppState) (threadId replyId : Z) (token : json)
    (listing : fetched (list Thread)) :
  truthy token = true →
  let shown (outcome : fetched unit) (status_text : string) : option string :=
    match outcome with
    | Rejected reason => Some (message reason)
    | Responded _ _ => Some status_text
    end in
  (threadTokens st !! token_key threadId = Some token →
   ∀ deletion, ¬ deleted deletion →
     after (handleDeleteThread st threadId deletion listing) st
     = setError (λ _, shown deletion "Failed to delete thread.") st)
  ∧ (replyTokens st !! token_key replyId = Some token →
     ∀ deletion, ¬ deleted deletion →
       after (handleDeleteReply st threadId replyId deletion listing) st
       = setError (λ _, shown deletion "Failed to delete reply.") st).
Proof.
  intros Htruthy shown. subst shown. unfold deleted.
  split; intros Htoken deletion Hfailed; run_handler; rewrite Htoken; cbn;
    rewrite Htruthy; cbn;
    destruct deletion as [reason|[] payload]; cbn; try done;
    destruct Hfailed; by eexists.
Qed.

Lemma delete_failed_witness :
  after (handleDeleteThread Sample.signed_in 1 (Rejected (Error "offline"))
           (Responded true (Normal []))) Sample.signed_in
  = setError (λ _, Some "offline") Sample.signed_in.
Proof.
  destruct (delete_failed Sample.signed_in 1 7 (JString "abc123")
              (Responded true (Normal [])) eq_refl) as [Hthread _].
  rewrite Hthread; [done|by vm_compute|by intros [? ?]].
Defined.

(** X14: the two token maps are separate and the session is out of reach
    of the four handlers: whatever the network answers, the thread
    handlers leave the reply map as it was, the reply handlers leave the
    thread map as it was, and none of them changes the bearer token or
    the user. *)
Theorem handlers_keep_other_map_and_session (st : AppState) (threadId replyId : Z)
    (ownerToken : string) (threadCreation : fetched ThreadCreateResponse)
    (replyCreation : fetched ReplyCreateResponse) (deletion : fetched unit)
    (listing : fetched (list Thread)) :
  let session_kept st' :=
    authToken st' = authToken st ∧ authUser st' = authUser st in
  (let st' := after (handleCreateThread st ownerToken threadCreation listing) st in
   replyTokens st' = replyTokens st ∧ session_kept st')
  ∧ (let st' := after (handleDeleteThread st threadId deletion listing) st in
     replyTokens st' = replyTokens st ∧ session_kept st')
  ∧ (let st' :=
       after (handleCreateReply st threadId ownerToken replyCreation listing) st in
     threadTokens st' = threadTokens st ∧ session_kept st')
  ∧ (let st' := after (handleDeleteReply st threadId replyId deletion listing) st in
     threadTokens st' = threadTokens st ∧ session_kept st').
Proof.
  intros session_kept. subst session_kept. cbv beta zeta. run_handler.
  split; [|split; [|split]].
  - destruct (JS.truthy_opt_string (authToken st)); cbn; [|done].
    destruct threadCreation as [reason|[] [response|e]]; cbn; try done.
    by destruct listing as [reason|[] [data|e]].
  - destruct (truthy_opt (threadTokens st !! token_key threadId)); cbn; [|done].
    destruct deletion as [reason|[] payload]; cbn; try done.
    by destruct listing as [reason|[] [data|e]].
  - destruct (JS.truthy_opt_string (authToken st)); cbn; [|done].
    destruct replyCreation as [reason|[] [response|e]]; cbn; try done.
    by destruct listing as [reason|[] [data|e]].
  - destruct (truthy_opt (replyTokens st !! token_key replyId)); cbn; [|done].
    destruct deletion as [reason|[] payload]; cbn; try done.
    by destruct listing as [reason|[] [data|e]].
Qed.

(** ** Storage and session *)

Section StoredSession.

Variable JSON_parse : string → completion json.
Variable JSON_stringify : json → string.
Variable numeric_key : string → string.

Lemma persist_auth_token st storage :
  persist JSON_stringify st storage !! authTokenStorageKey
  = if JS.truthy_opt_string (authToken st) then authToken st else None.
Proof.
  unfold persist, threadTokenStorageKey, replyTokenStorageKey,
    authTokenStorageKey, authUserStorageKey.
  destruct (truthy (authUser st)), (authToken st) as [[|c bearer]|]; simpl;
    repeat first [rewrite lookup_insert_ne by done
                 |rewrite lookup_delete_ne by done];
    first [apply lookup_insert_eq|apply lookup_delete_eq].
Qed.

Lemma persist_auth_user st storage :
  persist JSON_stringify st storage !! authUserStorageKey
  = if truthy (authUser st) then Some (JSON_stringify (authUser st)) else None.
Proof.
  unfold persist, threadTokenStorageKey, replyTokenStorageKey,
    authTokenStorageKey, authUserStorageKey.
  destruct (truthy (authUser st));
    first [apply lookup_insert_eq|apply lookup_delete_eq].
Qed.

Lemma initialState_reads storage storage' :
  storage !! threadTokenStorageKey = storage' !! threadTokenStorageKey →
  storage !! replyTokenStorageKey = storage' !! replyTokenStorageKey →
  storage !! authTokenStorageKey = storage' !! authTokenStorageKey →
  storage !! authUserStorageKey = storage' !! authUserStorageKey →
  initialState JSON_parse numeric_key storage
  = initialState JSON_parse numeric_key storage'.
Proof.
  intros Ht Hr Ha Hu. unfold initialState, readTokenMap, readStoredAuthUser.
  by rewrite Ht, Hr, Ha, Hu.
Qed.

End StoredSession.

(** X15: the component reads four storage keys at start-up and rewrites
    all four from its state, so what a reload gives depends on the state
    alone: whatever the storage held before, the same state comes back. *)
Theorem reload_forgets_old_storage (JSON_parse : string → completion json)
    (JSON_stringify : json → string) (numeric_key : string → string)
    (st : AppState) (storage storage' : Storage) :
  reload JSON_parse JSON_stringify numeric_key st storage
  = reload JSON_parse JSON_stringify numeric_key st storage'.
Proof.
  unfold reload. apply initialState_reads.
  - by rewrite !persist_thread_tokens.
  - by rewrite !persist_reply_tokens.
  - by rewrite !persist_auth_token.
  - by rewrite !persist_auth_user.
Qed.

(** X16: the session comes back from a reload as it was.  A bearer
    token that is not empty is read back unchanged, an empty or absent
    one is read back as absent; a truthy user is read back unchanged, the
    platform reading back the JSON text it wrote for it, and a falsy one
    as null.  So a session is active after the reload exactly when it
    was before. *)
Theorem session_survives_reload (JSON_parse : string → completion json)
    (JSON_stringify : json → string) (numeric_key : string → string)
    (st : AppState) (storage : Storage) :
  (truthy (authUser st) = true →
   JSON_stringify (authUser st) ≠ ""
   ∧ JSON_parse (JSON_stringify (authUser st)) = Normal (authUser st)) →
  ∃ st',
    reload JSON_parse JSON_stringify numeric_key st storage = Normal st'
    ∧ authToken st'
      = (if JS.truthy_opt_string (authToken st) then authToken st else None)
    ∧ authUser st' = (if truthy (authUser st) then authUser st else JNull)
    ∧ isAuthed st' = isAuthed st.
Proof.
  intros Huser. unfold reload.
  destruct (initialState_returns JSON_parse numeric_key
              (persist JSON_stringify st storage))
    as (st' & Hst' & _ & _ & Htoken & Hread).
  rewrite persist_auth_token in Htoken.
  assert (authUser st' = if truthy (authUser st) then authUser st else JNull)
    as Hback.
  { unfold readStoredAuthUser in Hread. rewrite persist_auth_user in Hread.
    destruct (truthy (authUser st)) eqn:Htruthy.
    - destruct (Huser eq_refl) as [Hnonempty Hparse].
      destruct (JSON_stringify (authUser st)) as [|c text] eqn:Htext; [done|].
      simpl in Hread. rewrite Hparse in Hread. by injection Hread.
    - by injection Hread. }
  exists st'. split; [done|]. split; [done|]. split; [done|].
  unfold isAuthed. rewrite Htoken, Hback.
  destruct (JS.truthy_opt_string (authToken st)) eqn:Hbearer; simpl.
  - rewrite Hbearer. simpl. by destruct (truthy (authUser st)) eqn:Htruthy.
  - done.
Qed.

Lemma session_survives_reload_witness :
  let st := setAuthUser (λ _, JObject [("username", JString "ada")])
              Sample.signed_in in
  ∃ st',
    reload Sample.JSON_parse Sample.JSON_stringify Sample.numeric_key st ∅
    = Normal st'
    ∧ authToken st' = Some "bearer"
    ∧ authUser st' = JObject [("username", JString "ada")]
    ∧ isAuthed st' = true.
Proof.
  intros st.
  destruct (session_survives_reload Sample.JSON_parse Sample.JSON_stringify
              Sample.numeric_key st ∅) as (st' & Hst' & Htoken & Huser & Hauth).
  - intros _. split; by vm_compute.
  - exists st'. split; [exact Hst'|]. split; [exact Htoken|].
    split; [exact Huser|]. rewrite Hauth. reflexivity.
Defined.



(** ** Keys of the token maps *)

Lemma Sample_numeric_key_idempotent (k : string) :
  Sample.numeric_key (Sample.numeric_key k) = Sample.numeric_key k.
Proof.
  assert (∀ k', Sample.numeric_key k' = k' ∨ Sample.numeric_key k' = "NaN")
    as Hcases.
  { intros k'. unfold Sample.numeric_key.
    destruct k' as [|c rest]; [by right|].
    destruct (decide (c = "-"%char)) as [->|Hc].
    - destruct (_ && _); [by left|by right].
    - assert (Sample.numeric_key (String c rest)
              = if Sample.canonical_natural (String c rest)
                then String c rest else "NaN") as Heq.
      { unfold Sample.numeric_key.
        destruct c as [[] [] [] [] [] [] [] []]; try done. }
      unfold Sample.numeric_key in Heq. rewrite Heq.
      destruct (Sample.canonical_natural _); [by left|by right]. }
  destruct (Hcases k) as [Hk|Hk]; rewrite Hk; [done|by vm_compute].
Qed.

(** X18: the keys of the token maps stay spellings of numbers.  With a
    [Number] that maps its own results to themselves, every key of a map
    read at start-up is left unchanged by line 43.  From a state whose
    maps have such keys, a create handler adds at most the key of the
    created id and a delete handler only removes a key, so the maps keep
    such keys through every handler, whatever the network answers. *)
Theorem numeric_keys_kept (JSON_parse : string → completion json)
    (numeric_key : string → string) (storage : Storage) (st : AppState)
    (threadId replyId : Z) (ownerToken : string)
    (threadCreation : fetched ThreadCreateResponse)
    (replyCreation : fetched ReplyCreateResponse) (deletion : fetched unit)
    (listing : fetched (list Thread)) :
  let numeric (tokens : gmap string json) :=
    map_Forall (λ k _, numeric_key k = k) tokens in
  let kept st' := numeric (threadTokens st') ∧ numeric (replyTokens st') in
  (∀ k, numeric_key (numeric_key k) = numeric_key k) →
  kept st →
  (∀ response, threadCreation = Responded true (Normal response) →
     numeric_key (token_key (thread_id (created_thread response)))
     = token_key (thread_id (created_thread response))) →
  (∀ response, replyCreation = Responded true (Normal response) →
     numeric_key (token_key (reply_id (created_reply response)))
     = token_key (reply_id (created_reply response))) →
  (∀ st0, initialState JSON_parse numeric_key storage = Normal st0 → kept st0)
  ∧ kept (after (handleCreateThread st ownerToken threadCreation listing) st)
  ∧ kept (after (handleCreateReply st threadId ownerToken replyCreation listing) st)
  ∧ kept (after (handleDeleteThread st threadId deletion listing) st)
  ∧ kept (after (handleDeleteReply st threadId replyId deletion listing) st).
Proof.
  intros numeric kept Hidem [Hthreads Hreplies] Hthread Hreply.
  subst kept numeric. cbv beta in *.
  split; [|split; [|split; [|split]]].
  - intros st0 Hst0.
    destruct (initialState_returns JSON_parse numeric_key storage)
      as (st1 & Hst1 & Hread_threads & Hread_replies & _).
    rewrite Hst0 in Hst1. injection Hst1 as <-.
    split; by eapply readTokenMap_numeric_keys.
  - run_handler.
    destruct (JS.truthy_opt_string (authToken st)); cbn; [|done].
    destruct threadCreation as [reason|[] [response|e]]; cbn; try done.
    assert (map_Forall (λ k (_ : json), numeric_key k = k)
              (<[token_key (thread_id (created_thread response)) :=
                   recorded_token (thread_owner_token response) ownerToken]>
                 (threadTokens st))) as Hrecorded.
    { apply map_Forall_insert_2; [by apply Hthread|done]. }
    by destruct listing as [reason|[] [data|e]].
  - run_handler.
    destruct (JS.truthy_opt_string (authToken st)); cbn; [|done].
    destruct replyCreation as [reason|[] [response|e]]; cbn; try done.
    assert (map_Forall (λ k (_ : json), numeric_key k = k)
              (<[token_key (reply_id (created_reply response)) :=
                   recorded_token (reply_owner_token response) ownerToken]>
                 (replyTokens st))) as Hrecorded.
    { apply map_Forall_insert_2; [by apply Hreply|done]. }
    by destruct listing as [reason|[] [data|e]].
  - run_handler.
    destruct (truthy_opt (threadTokens st !! token_key threadId)); cbn; [|done].
    destruct deletion as [reason|[] payload]; cbn; try done.
    assert (map_Forall (λ k (_ : json), numeric_key k = k)
              (delete (token_key threadId) (threadTokens st))) as Hdeleted
      by by apply map_Forall_delete.
    by destruct listing as [reason|[] [data|e]].
  - run_handler.
    destruct (truthy_opt (replyTokens st !! token_key replyId)); cbn; [|done].
    destruct deletion as [reason|[] payload]; cbn; try done.
    assert (map_Forall (λ k (_ : json), numeric_key k = k)
              (delete (token_key replyId) (replyTokens st))) as Hdeleted
      by by apply map_Forall_delete.
    by destruct listing as [reason|[] [data|e]].
Qed.

Lemma numeric_keys_kept_witness :
  let response :=
    mkThreadCreateResponse
      (mkThread 5 "title" "text" None true "2024-05-01T10:00:00Z" []) "abc123" in
  let st' := after (handleCreateThread Sample.signed_in "generated"
                      (Responded true (Normal response))
                      (Responded true (Normal []))) Sample.signed_in in
  map_Forall (λ k _, Sample.numeric_key k = k) (threadTokens st')
  ∧ threadTokens st' !! token_key 5 = Some (JString "abc123").
Proof.
  intros response st'.
  destruct (numeric_keys_kept literal_parse Sample.numeric_key ∅
              Sample.signed_in 1 7 "generated"
              (Responded true (Normal response))
              (Responded false (Throw (Error "Failed to create reply")))
              (Responded true (Normal tt))
              (Responded true (Normal [])))
    as (_ & [Hkept _] & _).
  - apply Sample_numeric_key_idempotent.
  - split; by apply map_Forall_singleton.
  - by intros ? [= <-].
  - by intros ? [=].
  - split; [exact Hkept|]. subst st'. cbn. apply lookup_insert_eq.
Defined.

(** ** The generated owner token *)

Lemma elem_of_remove_dashes (c : ascii) (s : string) :
  c ∈ list_ascii_of_string (remove_dashes s)
  ↔ c ≠ "-"%char ∧ c ∈ list_ascii_of_string s.
Proof.
  induction s as [|a s IH]; simpl.
  - rewrite elem_of_nil. tauto.
  - destruct (decide (a = "-"%char)) as [->|Ha]; simpl;
      rewrite ?elem_of_cons, IH.
    + split; [intros [Hdash Hc]; by auto|].
      intros [Hdash [->|Hc]]; [done|by split].
    + split; [intros [->|[Hdash Hc]]; by auto|].
      intros [Hdash [->|Hc]]; [by left|by right].
Qed.

Lemma base36_go_nonempty (fuel : nat) (n : N) (acc : string) :
  acc ≠ "" → base36_go fuel n acc ≠ "".
Proof.
  revert n acc. induction fuel as [|fuel IH]; intros n acc Hacc; simpl; [done|].
  destruct (n =? 0)%N; [done|]. by apply IH.
Qed.

Lemma toString36_nonempty (n : Z) : toString36 n ≠ "".
Proof.
  assert (∀ p, base36_N (N.pos p) ≠ "") as Hpos.
  { intros p. unfold base36_N. simpl (N.pos p =? 0)%N. cbv iota.
    destruct (N.size_nat (N.pos p)) as [|fuel] eqn:Hsize; [by destruct p|].
    simpl. by apply base36_go_nonempty. }
  destruct n as [|p|p]; simpl; [done|apply Hpos|done].
Qed.

(** X19: the generated owner token is never the empty string, so the
    token a create handler records, [owner_token || ownerToken], is truthy
    and gives the delete capability.  Where the browser has
    [crypto.randomUUID], whose result holds a character other than a
    dash, the token holds the characters of the UUID but no dash; where
    it has not, the token starts with the base-36 text of the clock, which
    has a digit at least. *)
Theorem generateOwnerToken_truthy (randomUUID : option string) (now : Z)
    (random36 answered : string) :
  (∀ uuid, randomUUID = Some uuid →
     ∃ c, c ≠ "-"%char ∧ c ∈ list_ascii_of_string uuid) →
  let token := generateOwnerToken randomUUID now random36 in
  JS.truthy_string token = true
  ∧ truthy (recorded_token answered token) = true
  ∧ (∀ uuid, randomUUID = Some uuid →
       ∀ c, c ∈ list_ascii_of_string token
            ↔ c ≠ "-"%char ∧ c ∈ list_ascii_of_string uuid).
Proof.
  intros Huuid token.
  assert (token ≠ "") as Hnonempty.
  { subst token. unfold generateOwnerToken.
    destruct randomUUID as [uuid|].
    - destruct (Huuid uuid eq_refl) as (c & Hdash & Hc).
      assert (c ∈ list_ascii_of_string (remove_dashes uuid)) as Hin
        by by apply elem_of_remove_dashes.
      intros Hempty. rewrite Hempty in Hin. by apply elem_of_nil in Hin.
    - pose proof (toString36_nonempty now) as Hclock.
      by destruct (toString36 now). }
  split; [by destruct token|]. split.
  - by apply recorded_token_truthy.
  - intros uuid -> c. apply elem_of_remove_dashes.
Qed.

Lemma generateOwnerToken_truthy_witness :
  let token :=
    generateOwnerToken (Some "123e4567-e89b-12d3-a456-426614174000") 0 "" in
  token = "123e4567e89b12d3a456426614174000"
  ∧ truthy (recorded_token "" token) = true.
Proof.
  intros token. split; [reflexivity|].
  apply (generateOwnerToken_truthy
           (Some "123e4567-e89b-12d3-a456-426614174000") 0 "" "").
  intros uuid [= <-]. exists "1"%char. split; [done|]. simpl. left.
Defined.

(** ** The theme *)

(** X20: the theme survives a reload.  The effect of lines 128-131
    stores the name of the theme and the initial value of the cell reads
    it back, whatever the storage held before and whatever the system
    prefers; after the toggle button the other theme comes back. *)
Theorem theme_survives_reload (theme : Theme) (storage : Storage)
    (prefersDark : bool) :
  initialTheme (persistTheme theme storage) prefersDark = theme
  ∧ initialTheme (persistTheme (toggleTheme theme) (persistTheme theme storage))
      prefersDark ≠ theme
  ∧ toggleTheme (toggleTheme theme) = theme.
Proof.
  unfold initialTheme, persistTheme.
  rewrite !lookup_insert_eq. by destruct theme.
Qed.

(** X21: a stored theme that is neither [light] nor [dark], or none
    stored, gives the theme the system prefers. *)
Theorem initialTheme_fallback (storage : Storage) (prefersDark : bool) :
  storage !! "forum-theme" ≠ Some "light" →
  storage !! "forum-theme" ≠ Some "dark" →
  initialTheme storage prefersDark = if prefersDark then dark else light.
Proof.
  intros Hlight Hdark. unfold initialTheme.
  destruct (decide (_ = Some "light")); [done|].
  by destruct (decide (_ = Some "dark")).
Qed.

Lemma initialTheme_fallback_witness :
  initialTheme {["forum-theme" := "Dark"]} false = light
  ∧ initialTheme ∅ true = dark.
Proof.
  split.
  - by apply (initialTheme_fallback {["forum-theme" := "Dark"]} false).
  - by apply (initialTheme_fallback ∅ true).
Defined.

(** ** Signing in and out *)

Ltac run_auth :=
  cbv [auth_run handleAuthSubmit Routed_handleAuthSubmit handleSignOut
       mbind mret AuthM_bind AuthM_ret set_app set_cells auth_fetch
       auth_throw auth_settle auth_try_catch];
  cbn [fst snd auth_app auth_cells auth_sent negb app].







(** X25: the two clients show the same error for a failure status
    whose body has no [detail] or a [detail] that is a string and not
    empty: the detail itself, or "Authentication failed." where there is
    none. *)
Theorem auth_error_agrees (trim : string → string)
    (JSON_stringify : json → string) (st : AppState) (c : AuthCells)
    (payload : AuthPayload) (onSuccess : AuthM unit) :
  (payload_detail payload = None
   ∨ ∃ detail, payload_detail payload = Some (JString detail) ∧ detail ≠ "") →
  let shown :=
    authError
      (auth_cells
         (auth_run (handleAuthSubmit trim c (Responded false (Normal payload)))
            st c).2) in
  let shown_with_routes :=
    authError
      (auth_cells
         (auth_run
            (Routed_handleAuthSubmit trim JSON_stringify c
               (Responded false (Normal (Some payload))) onSuccess) st c).2) in
  shown = shown_with_routes
  ∧ shown = Some (match payload_detail payload with
                  | Some (JString detail) => detail
                  | _ => "Authentication failed."
                  end).
Proof.
  intros Hdetail shown shown_with_routes.
  subst shown shown_with_routes. run_auth. unfold detail_text. cbn.
  destruct Hdetail as [->|(detail & -> & Hnonempty)]; cbn; [done|].
  by destruct detail.
Qed.

Lemma auth_error_agrees_witness :
  let c := mkAuthCells signup "ada" "ada@example.org" "secret" None None false in
  let payload := mkAuthPayload (Some (JString "Username taken")) None None in
  authError
    (auth_cells
       (auth_run
          (Routed_handleAuthSubmit id Sample.JSON_stringify c
             (Responded false (Normal (Some payload))) (mret tt))
          Sample.signed_out c).2)
  = Some "Username taken".
Proof.
  intros c payload.
  destruct (auth_error_agrees id Sample.JSON_stringify Sample.signed_out c
              payload (mret tt)) as [Hsame Hshown].
  - right. by exists "Username taken".
  - by rewrite <- Hsame, Hshown.
Defined.

(** X26: signing out ends the session and nothing else.  The handler
    sends no request, keeps both token maps, leaves no session, and does
    the same when there is none; the storage effects then remove the
    stored bearer token and the stored user, so a reload starts without a
    session too. *)
Theorem handleSignOut_clears (JSON_parse : string → completion json)
    (JSON_stringify : json → string) (numeric_key : string → string)
    (st : AppState) (c : AuthCells) (storage : Storage) :
  let out := auth_run handleSignOut st c in
  let st' := auth_app out.2 in
  out.1 = Normal tt
  ∧ auth_sent out.2 = []
  ∧ authToken st' = None ∧ authUser st' = JNull ∧ isAuthed st' = false
  ∧ threadTokens st' = threadTokens st ∧ replyTokens st' = replyTokens st
  ∧ auth_run handleSignOut st' (auth_cells out.2) = out
  ∧ persist JSON_stringify st' storage !! authTokenStorageKey = None
  ∧ persist JSON_stringify st' storage !! authUserStorageKey = None
  ∧ ∃ st'', reload JSON_parse JSON_stringify numeric_key st' storage = Normal st''
            ∧ authToken st'' = None ∧ authUser st'' = JNull
            ∧ isAuthed st'' = false.
Proof.
  intros out st'.
  assert (authToken st' = None ∧ authUser st' = JNull) as [Htoken Huser] by done.
  assert (persist JSON_stringify st' storage !! authTokenStorageKey = None)
    as Hstored_token by by rewrite persist_auth_token, Htoken.
  assert (persist JSON_stringify st' storage !! authUserStorageKey = None)
    as Hstored_user by by rewrite persist_auth_user, Huser.
  do 9 (split; [done|]). split; [done|].
  unfold reload.
  destruct (initialState_returns JSON_parse numeric_key
              (persist JSON_stringify st' storage))
    as (st'' & Hst'' & _ & _ & Hread_token & Hread_user).
  rewrite Hstored_token in Hread_token.
  rewrite (readStoredAuthUser_absent JSON_parse _ (or_introl Hstored_user))
    in Hread_user.
  injection Hread_user as Hread_user.
  exists st''. split; [done|]. split; [done|]. split; [done|].
  unfold isAuthed. by rewrite Hread_token.
Qed.
